(** * TradeKix MCP server: the request adapter and its ten tool handlers

    A shallow embedding of [src/index.ts].  The program is a thin adapter:
    every tool handler collects its defined arguments into a parameter
    object, calls [makeRequest], and wraps the result of
    [JSON.stringify (data, null, 2)] into a single text content block.

    Modelling choices.
    - JavaScript values are the inductive [value]; objects are association
      lists in property enumeration order.  A number is a zero of either
      sign, an infinity, or the digits and decimal point of the shortest
      decimal that identifies it, which is what Number::toString prints
      from.  [JSON.parse] sends a decimal beyond the range of the doubles
      to an infinity or a zero; how a decimal inside the range is rounded
      to a double, and NaN, which no JSON text denotes, are outside the
      embedding.
    - Strings are byte strings, read as the UTF-8 encoding of the
      JavaScript string.
    - [async]/[await] is sequential inside one invocation, so a handler is a
      computation in a reader/state/error monad [M]: it reads the process
      environment and the upstream, appends to the log of issued requests,
      and either returns or throws.
    - [URL], [URLSearchParams], [fetch], [Response.json],
      [JSON.stringify] and [JSON.parse] belong to the platform; they are
      modelled after their specifications (WHATWG URL, ECMA-262) as far as
      the adapter uses them. *)

From Stdlib Require Import String Ascii List NArith ZArith Bool Lia.
From Stdlib Require DecimalPos DecimalN.
Import ListNotations.
Open Scope string_scope.

(** ** JavaScript values *)

(** A number, as Number::toString sees it (ECMA-262): [+0], [-0], an
    infinity, or the digits of the shortest decimal that identifies it --
    no zero in front, none at the end -- with the position of the decimal
    point, the value being [+/- 0.d1...dk * 10^point].  So [30] is
    [Finite false "3" 2] and [1.5] is [Finite false "15" 1].  NaN, which
    [JSON.parse] never produces, is left out. *)
Inductive number : Type :=
| Zero
| NegZero
| Infinite (negative : bool)
| Finite (negative : bool) (digits : string) (point : Z).

#[local] Unset Elimination Schemes.
Inductive value : Type :=
| VUndefined
| VNull
| VBool (b : bool)
| VNum (n : number)
| VStr (s : string)
| VArr (items : list value)
| VObj (props : list (string * value)).
#[local] Set Elimination Schemes.

(** Induction on values, through the lists nested in arrays and objects. *)
Section ValueInduction.

Variable P : value -> Prop.
Hypothesis P_undefined : P VUndefined.
Hypothesis P_null : P VNull.
Hypothesis P_bool : forall b, P (VBool b).
Hypothesis P_num : forall n, P (VNum n).
Hypothesis P_str : forall s, P (VStr s).
Hypothesis P_arr : forall items, Forall P items -> P (VArr items).
Hypothesis P_obj :
  forall props, Forall (fun p => P (snd p)) props -> P (VObj props).

Fixpoint value_ind (v : value) : P v :=
  match v with
  | VUndefined => P_undefined
  | VNull => P_null
  | VBool b => P_bool b
  | VNum n => P_num n
  | VStr s => P_str s
  | VArr items =>
      P_arr items
        ((fix all (l : list value) : Forall P l :=
            match l with
            | [] => Forall_nil P
            | x :: l' => Forall_cons x (value_ind x) (all l')
            end) items)
  | VObj props =>
      P_obj props
        ((fix all (l : list (string * value)) : Forall (fun p => P (snd p)) l :=
            match l with
            | [] => Forall_nil _
            | p :: l' => Forall_cons p (value_ind (snd p)) (all l')
            end) props)
  end.

End ValueInduction.

(** ECMA-262 ToBoolean. *)
Definition truthy (v : value) : bool :=
  match v with
  | VUndefined | VNull => false
  | VBool b => b
  | VNum (Zero | NegZero) => false
  | VNum (Infinite _ | Finite _ _ _) => true
  | VStr s => negb (s =? "")
  | VArr _ | VObj _ => true
  end.

(** Own-property lookup in an association list. *)
Fixpoint lookup {A : Type} (k : string) (l : list (string * A)) : option A :=
  match l with
  | [] => None
  | (k', a) :: l' => if k' =? k then Some a else lookup k l'
  end.

(** Property assignment [o.k = a]: an existing property keeps its place,
    a new one goes last. *)
Fixpoint assign {A : Type} (k : string) (a : A) (l : list (string * A))
  : list (string * A) :=
  match l with
  | [] => [(k, a)]
  | (k', a') :: l' => if k' =? k then (k', a) :: l' else (k', a') :: assign k a l'
  end.

Definition keys {A : Type} (l : list (string * A)) : list string := map fst l.

(** Exceptions the adapter can raise or let through. *)
Inductive exn : Type :=
| Error (message : string)   (* [throw new Error(message)] *)
| TypeError                  (* property read on [null] or [undefined] *)
| SyntaxError                (* [resp.json()] on a body that is not JSON *)
| FetchFailed.               (* [fetch] rejected: no response arrived *)

(** The property read [v.k], for the names the adapter reads ([success],
    [error], [upgrade], [retry_after_seconds], [data]): none of them is a
    built-in property of arrays, strings, numbers or booleans, so on those
    the read gives [undefined]; on [null] and [undefined] it throws. *)
Definition get (v : value) (k : string) : exn + value :=
  match v with
  | VUndefined | VNull => inl TypeError
  | VObj props =>
      match lookup k props with
      | Some x => inr x
      | None => inr VUndefined
      end
  | _ => inr VUndefined
  end.

(** ** The world of one invocation *)

Record Request : Type := mkRequest {
  req_url : string;
  req_headers : list (string * string)
}.

(** What [await fetch(...)] followed by [await resp.json()] can observe:
    the fetch rejects, or a response arrives whose body parses to a value
    or does not parse. *)
Inductive Response : Type :=
| mkResponse (json_body : option value).

Inductive FetchOutcome : Type :=
| Rejected
| Fulfilled (resp : Response).

(** [TRADEKIX_API_KEY] is [process.env.TRADEKIX_API_KEY] ([None] is
    [undefined]); [network] answers a request given the requests the
    invocation has issued before it. *)
Record World : Type := mkWorld {
  TRADEKIX_API_KEY : option string;
  network : list Request -> Request -> FetchOutcome
}.

(** ** The monad of handlers *)

Definition M (A : Type) : Type :=
  World -> list Request -> (exn + A) * list Request.

Definition ret {A : Type} (a : A) : M A := fun _ log => (inr a, log).

Definition throw {A : Type} (e : exn) : M A := fun _ log => (inl e, log).

Definition bind {A B : Type} (m : M A) (k : A -> M B) : M B :=
  fun w log =>
    match m w log with
    | (inl e, log') => (inl e, log')
    | (inr a, log') => k a w log'
    end.

Declare Scope js_scope.
Delimit Scope js_scope with js.
Notation "'let*' x ':=' m 'in' k" := (bind m (fun x => k))
  (at level 10, x name, m at level 100, k at level 200) : js_scope.

Definition lift {A : Type} (r : exn + A) : M A :=
  match r with
  | inl e => throw e
  | inr a => ret a
  end.

Definition process_env_TRADEKIX_API_KEY : M (option string) :=
  fun w log => (inr (TRADEKIX_API_KEY w), log).

Definition fetch (url : string) (headers : list (string * string)) : M Response :=
  fun w log =>
    let r := mkRequest url headers in
    match network w log r with
    | Rejected => (inl FetchFailed, (log ++ [r])%list)
    | Fulfilled resp => (inr resp, (log ++ [r])%list)
    end.

Definition json (resp : Response) : M value :=
  match resp with
  | mkResponse (Some v) => ret v
  | mkResponse None => throw SyntaxError
  end.

(** Running an invocation from an empty request log. *)
Definition run {A : Type} (m : M A) (w : World) : (exn + A) * list Request :=
  m w [].

(** ** Text helpers *)

Definition nl : string := String "010"%char EmptyString.
Definition dq : string := String "034"%char EmptyString.
Definition backslash : string := String "092"%char EmptyString.

Fixpoint join (sep : string) (l : list string) : string :=
  match l with
  | [] => ""
  | [x] => x
  | x :: l' => x ++ sep ++ join sep l'
  end.

(** [contains needle hay]: [needle] occurs in [hay] as a substring. *)
Fixpoint contains (needle hay : string) : bool :=
  prefix needle hay ||
  match hay with
  | EmptyString => false
  | String _ hay' => contains needle hay'
  end.

Definition hex_digit (upper : bool) (n : nat) : ascii :=
  if (n <? 10)%nat then ascii_of_nat (48 + n)
  else ascii_of_nat ((if upper then 55 else 87) + n).

Definition hex_byte (upper : bool) (c : ascii) : string :=
  let n := nat_of_ascii c in
  String (hex_digit upper (n / 16)) (String (hex_digit upper (n mod 16)) "").

(** ** URL and URLSearchParams (WHATWG URL) *)

(** The adapter builds URLs only from [BASE_URL] and one of ten literal
    endpoint paths; the URL parser leaves such a string as it is (no query,
    no fragment, nothing to normalise or percent-encode), so a fresh URL is
    that string with an empty list of search parameters. *)
Record URL : Type := mkURL {
  url_base : string;
  searchParams : list (string * string)
}.

Definition new_URL (s : string) : URL := mkURL s [].

(** The strings on which this reading of [new URL] is exact: letters,
    digits, [/], [-] and [_] only. *)
Definition plain_char (c : ascii) : bool :=
  let n := nat_of_ascii c in
  (((48 <=? n) && (n <=? 57)) || ((65 <=? n) && (n <=? 90))
   || ((97 <=? n) && (n <=? 122))
   || (n =? 47) || (n =? 45) || (n =? 95))%nat.

Fixpoint plain_path (s : string) : bool :=
  match s with
  | EmptyString => true
  | String c s' => plain_char c && plain_path s'
  end.

(** [searchParams.set(name, value)]: the first tuple named [name] takes the
    value and the other tuples of that name go; with no such tuple the pair
    is appended. *)
Fixpoint searchParams_set (name val : string) (l : list (string * string))
  : list (string * string) :=
  match l with
  | [] => [(name, val)]
  | (n, v) :: l' =>
      if n =? name
      then (n, val) :: filter (fun p => negb (fst p =? name)) l'
      else (n, v) :: searchParams_set name val l'
  end.

Definition URL_set (name val : string) (u : URL) : URL :=
  mkURL (url_base u) (searchParams_set name val (searchParams u)).

(** The application/x-www-form-urlencoded serializer: alphanumerics and
    [*-._] stay, a space becomes [+], every other byte is [%HH]. *)
Definition urlencoded_keep (c : ascii) : bool :=
  let n := nat_of_ascii c in
  (((48 <=? n) && (n <=? 57)) || ((65 <=? n) && (n <=? 90))
   || ((97 <=? n) && (n <=? 122))
   || (n =? 42) || (n =? 45) || (n =? 46) || (n =? 95))%nat.

Definition urlencode_byte (c : ascii) : string :=
  if urlencoded_keep c then String c ""
  else if (nat_of_ascii c =? 32)%nat then "+"
  else "%" ++ hex_byte true c.

Fixpoint urlencode (s : string) : string :=
  match s with
  | EmptyString => ""
  | String c s' => urlencode_byte c ++ urlencode s'
  end.

Definition query_string (l : list (string * string)) : string :=
  join "&" (map (fun p => urlencode (fst p) ++ "=" ++ urlencode (snd p)) l).

(** [url.toString()]. *)
Definition URL_toString (u : URL) : string :=
  match searchParams u with
  | [] => url_base u
  | l => url_base u ++ "?" ++ query_string l
  end.

(** ** JSON.stringify (value, null, 2)  (ECMA-262 SerializeJSONProperty) *)

Definition quote_char (c : ascii) : string :=
  let n := nat_of_ascii c in
  if (n =? 8)%nat then backslash ++ "b"
  else if (n =? 9)%nat then backslash ++ "t"
  else if (n =? 10)%nat then backslash ++ "n"
  else if (n =? 12)%nat then backslash ++ "f"
  else if (n =? 13)%nat then backslash ++ "r"
  else if (n =? 34)%nat then backslash ++ dq
  else if (n =? 92)%nat then backslash ++ backslash
  else if (n <? 32)%nat then backslash ++ "u00" ++ hex_byte false c
  else String c "".

Fixpoint quote_body (s : string) : string :=
  match s with
  | EmptyString => ""
  | String c s' => quote_char c ++ quote_body s'
  end.

Definition quote (s : string) : string := dq ++ quote_body s ++ dq.

Fixpoint uint_to_string (d : Decimal.uint) : string :=
  match d with
  | Decimal.Nil => ""
  | Decimal.D0 d => String "0" (uint_to_string d)
  | Decimal.D1 d => String "1" (uint_to_string d)
  | Decimal.D2 d => String "2" (uint_to_string d)
  | Decimal.D3 d => String "3" (uint_to_string d)
  | Decimal.D4 d => String "4" (uint_to_string d)
  | Decimal.D5 d => String "5" (uint_to_string d)
  | Decimal.D6 d => String "6" (uint_to_string d)
  | Decimal.D7 d => String "7" (uint_to_string d)
  | Decimal.D8 d => String "8" (uint_to_string d)
  | Decimal.D9 d => String "9" (uint_to_string d)
  end.

Definition is_digit (c : ascii) : bool :=
  let n := nat_of_ascii c in ((48 <=? n) && (n <=? 57))%nat.

Fixpoint all_digits (s : string) : bool :=
  match s with
  | EmptyString => true
  | String c s' => is_digit c && all_digits s'
  end.

Fixpoint zeros (m : nat) : string :=
  match m with
  | O => ""
  | S m' => String "0" (zeros m')
  end.

Fixpoint strip_leading (s : string) : string :=
  match s with
  | EmptyString => ""
  | String c s' => if (c =? "0")%char then strip_leading s' else s
  end.

Fixpoint strip_trailing (s : string) : string :=
  match s with
  | EmptyString => ""
  | String c s' =>
      match strip_trailing s' with
      | EmptyString => if (c =? "0")%char then "" else String c ""
      | t => String c t
      end
  end.

(** The digits of a number: digits only, at least one, no zero in front
    and none at the end. *)
Definition canonical (ds : string) : bool :=
  all_digits ds && negb (ds =? "")
  && (strip_leading ds =? ds) && (strip_trailing ds =? ds).

(** The integer that a run of digits writes. *)
Fixpoint digits_value_from (acc : Z) (ds : string) : Z :=
  match ds with
  | EmptyString => acc
  | String c ds' =>
      digits_value_from (10 * acc + Z.of_nat (nat_of_ascii c - 48)) ds'
  end.

Definition digits_value (ds : string) : Z := digits_value_from 0 ds.

(** The range of the doubles (IEEE 754 binary64, round to nearest, ties to
    even).  A magnitude of [2^1024 - 2^970] or more, half way between the
    largest double and [2^1024], rounds to an infinity; a magnitude of
    [2^-1075] or less, half way between zero and the least double, rounds
    to a zero.  Both tests are on the value [0.ds * 10^point], that is
    [digits_value ds * 10^(point - length ds)]. *)
Definition double_overflow : Z := Z.shiftl 1 1024 - Z.shiftl 1 970.

Definition overflows (ds : string) (point : Z) : bool :=
  let e := (point - Z.of_nat (String.length ds))%Z in
  if (0 <=? e)%Z then (double_overflow <=? digits_value ds * 10 ^ e)%Z
  else (double_overflow * 10 ^ (- e) <=? digits_value ds)%Z.

Definition underflows (ds : string) (point : Z) : bool :=
  let e := (point - Z.of_nat (String.length ds))%Z in
  if (0 <=? e)%Z then false
  else (digits_value ds * Z.shiftl 1 1075 <=? 10 ^ (- e))%Z.

Definition in_range (ds : string) (point : Z) : bool :=
  negb (overflows ds point) && negb (underflows ds point).

(** A number [JSON.parse] can produce: a zero, an infinity, or canonical
    digits of a magnitude inside the range of the doubles.  (That the
    digits are the shortest that identify a double is not asked.) *)
Definition number_ok (x : number) : bool :=
  match x with
  | Zero | NegZero | Infinite _ => true
  | Finite _ ds n => canonical ds && in_range ds n
  end.

(** A number that JSON text writes without loss: not the negative zero,
    which is written [0], and not an infinity, which is written [null]. *)
Definition number_exact (x : number) : bool :=
  match x with
  | Zero => true
  | NegZero | Infinite _ => false
  | Finite _ ds n => canonical ds && in_range ds n
  end.

(** The double nearest to [+/- 0.ds * 10^point], for canonical digits. *)
Definition classify (negative : bool) (ds : string) (point : Z) : number :=
  if overflows ds point then Infinite negative
  else if underflows ds point then (if negative then NegZero else Zero)
  else Finite negative ds point.

(** The number written [int . frac e exp] in decimal. *)
Definition decimal (negative : bool) (int frac : string) (exp : Z) : number :=
  let all := int ++ frac in
  let significant := strip_leading all in
  match strip_trailing significant with
  | EmptyString => if negative then NegZero else Zero
  | ds =>
      classify negative ds
        (Z.of_nat (String.length int)
         - Z.of_nat (String.length all - String.length significant) + exp)
  end.

(** An integer as a number. *)
Definition integer (z : Z) : number :=
  match z with
  | Z0 => Zero
  | Zpos p => decimal false (uint_to_string (Pos.to_uint p)) "" 0
  | Zneg p => decimal true (uint_to_string (Pos.to_uint p)) "" 0
  end.

Fixpoint split_at (m : nat) (s : string) : string * string :=
  match m, s with
  | S m', String c s' => let (a, b) := split_at m' s' in (String c a, b)
  | _, _ => ("", s)
  end.

(** Number::toString, radix 10, on the digits [ds] (there are [k] of them)
    and the point [n]: plain digits up to 10^21, a fraction down to 10^-6,
    the exponent form beyond. *)
Definition Number_toString (x : number) : string :=
  match x with
  | Zero | NegZero => "0"
  | Infinite negative => if negative then "-Infinity" else "Infinity"
  | Finite negative ds n =>
      let k := Z.of_nat (String.length ds) in
      (if negative then "-" else "") ++
      (if (k <=? n) && (n <=? 21) then ds ++ zeros (Z.to_nat (n - k))
       else if (0 <? n) && (n <=? 21) then
         let (a, b) := split_at (Z.to_nat n) ds in a ++ "." ++ b
       else if (-6 <? n) && (n <=? 0) then
         "0." ++ zeros (Z.to_nat (- n)) ++ ds
       else
         let e := n - 1 in
         let exponent :=
           (if 0 <? e then "+" else "-")
           ++ uint_to_string (N.to_uint (Z.to_N (Z.abs e))) in
         match ds with
         | EmptyString => ""
         | String d EmptyString => String d ("e" ++ exponent)
         | String d more => String d ("." ++ more ++ "e" ++ exponent)
         end)%Z
  end.

(** SerializeJSONProperty on a number: a finite one is written by
    Number::toString, an infinity as [null]. *)
Definition JSON_number (x : number) : string :=
  match x with
  | Infinite _ => "null"
  | _ => Number_toString x
  end.

Definition gap : string := "  ".

(** [serialize indent v] is SerializeJSONProperty at the current
    indentation: [None] is [undefined].  An array element that serializes
    to [undefined] is written [null]; an object property that does is
    left out. *)
Fixpoint serialize (indent : string) (v : value) : option string :=
  match v with
  | VUndefined => None
  | VNull => Some "null"
  | VBool true => Some "true"
  | VBool false => Some "false"
  | VNum n => Some (JSON_number n)
  | VStr s => Some (quote s)
  | VArr items =>
      let stepback := indent in
      let indent := indent ++ gap in
      let partial :=
        map (fun x => match serialize indent x with
                      | Some s => s
                      | None => "null"
                      end) items in
      match partial with
      | [] => Some "[]"
      | _ => Some ("[" ++ nl ++ indent
                   ++ join ("," ++ nl ++ indent) partial
                   ++ nl ++ stepback ++ "]")
      end
  | VObj props =>
      let stepback := indent in
      let indent := indent ++ gap in
      let partial :=
        flat_map (fun p => match serialize indent (snd p) with
                           | Some s => [quote (fst p) ++ ": " ++ s]
                           | None => []
                           end) props in
      match partial with
      | [] => Some "{}"
      | _ => Some ("{" ++ nl ++ indent
                   ++ join ("," ++ nl ++ indent) partial
                   ++ nl ++ stepback ++ "}")
      end
  end.

Definition JSON_stringify (v : value) : option string := serialize "" v.

(** The texts of the elements of an array, and of the members of an
    object, as [serialize] collects them. *)
Definition elems (indent : string) (items : list value) : list string :=
  map (fun x => match serialize indent x with
                | Some s => s
                | None => "null"
                end) items.

Definition members (indent : string) (props : list (string * value))
  : list string :=
  flat_map (fun p => match serialize indent (snd p) with
                     | Some s => [quote (fst p) ++ ": " ++ s]
                     | None => []
                     end) props.

(** ** JSON.parse  (ECMA-262 / RFC 8259), as far as the embedding goes

    The parser reads the JSON grammar into [value]: white space, the three
    literals, strings with every escape, arrays, objects (a repeated key
    overwrites, as in JavaScript), and numbers: a decimal beyond the range
    of the doubles becomes an infinity or a zero, [-0] the negative zero,
    and a decimal inside the range is kept as written (its rounding to the
    nearest double is outside the embedding).  An escaped lone surrogate,
    which has no UTF-8 form, is refused. *)

Definition is_ws (c : ascii) : bool :=
  let n := nat_of_ascii c in
  ((n =? 32) || (n =? 9) || (n =? 10) || (n =? 13))%nat.

Fixpoint skip_ws (s : string) : string :=
  match s with
  | EmptyString => EmptyString
  | String c s' => if is_ws c then skip_ws s' else s
  end.

Definition hex_val (c : ascii) : option N :=
  let n := N_of_ascii c in
  (if (48 <=? n) && (n <=? 57) then Some (n - 48)
   else if (97 <=? n) && (n <=? 102) then Some (n - 87)
   else if (65 <=? n) && (n <=? 70) then Some (n - 55)
   else None)%N.

Definition hex4 (h1 h2 h3 h4 : ascii) : option N :=
  match hex_val h1, hex_val h2, hex_val h3, hex_val h4 with
  | Some a, Some b, Some c, Some d => Some (((a * 16 + b) * 16 + c) * 16 + d)%N
  | _, _, _, _ => None
  end.

(** The UTF-8 bytes of a code point. *)
Definition utf8_encode (cp : N) : string :=
  let byte n := ascii_of_N n in
  (if cp <? 128 then String (byte cp) ""
   else if cp <? 2048 then
     String (byte (192 + cp / 64)) (String (byte (128 + cp mod 64)) "")
   else if cp <? 65536 then
     String (byte (224 + cp / 4096))
       (String (byte (128 + (cp / 64) mod 64))
          (String (byte (128 + cp mod 64)) ""))
   else
     String (byte (240 + cp / 262144))
       (String (byte (128 + (cp / 4096) mod 64))
          (String (byte (128 + (cp / 64) mod 64))
             (String (byte (128 + cp mod 64)) ""))))%N.

Definition is_high_surrogate (cp : N) : bool :=
  ((55296 <=? cp) && (cp <=? 56319))%N.
Definition is_low_surrogate (cp : N) : bool :=
  ((56320 <=? cp) && (cp <=? 57343))%N.

(** The character a two-character escape stands for. *)
Definition simple_escape (e : ascii) : option ascii :=
  let n := nat_of_ascii e in
  if (n =? 34)%nat then Some "034"%char
  else if (n =? 92)%nat then Some "092"%char
  else if (n =? 47)%nat then Some "/"%char
  else if (n =? 98)%nat then Some "008"%char
  else if (n =? 102)%nat then Some "012"%char
  else if (n =? 110)%nat then Some "010"%char
  else if (n =? 114)%nat then Some "013"%char
  else if (n =? 116)%nat then Some "009"%char
  else None.

Definition prepend (pre : string) (r : option (string * string))
  : option (string * string) :=
  match r with
  | Some (x, rest) => Some (pre ++ x, rest)
  | None => None
  end.

(** The characters of a string literal, after its opening quote, up to and
    including the closing quote. *)
Fixpoint parse_chars (s : string) : option (string * string) :=
  match s with
  | EmptyString => None
  | String c s1 =>
      if (nat_of_ascii c =? 34)%nat then Some ("", s1)
      else if (nat_of_ascii c =? 92)%nat then
        match s1 with
        | EmptyString => None
        | String e s2 =>
            match simple_escape e with
            | Some c' => prepend (String c' "") (parse_chars s2)
            | None =>
                if (nat_of_ascii e =? 117)%nat then
                  match s2 with
                  | String h1 (String h2 (String h3 (String h4 s3))) =>
                      match hex4 h1 h2 h3 h4 with
                      | Some cp =>
                          if is_high_surrogate cp then
                            match s3 with
                            | String b (String u (String l1 (String l2
                                (String l3 (String l4 s4))))) =>
                                if ((nat_of_ascii b =? 92)
                                    && (nat_of_ascii u =? 117))%nat
                                then
                                  match hex4 l1 l2 l3 l4 with
                                  | Some lo =>
                                      if is_low_surrogate lo
                                      then prepend
                                             (utf8_encode
                                                (65536 + (cp - 55296) * 1024
                                                 + (lo - 56320))%N)
                                             (parse_chars s4)
                                      else None
                                  | None => None
                                  end
                                else None
                            | _ => None
                            end
                          else if is_low_surrogate cp then None
                          else prepend (utf8_encode cp) (parse_chars s3)
                      | None => None
                      end
                  | _ => None
                  end
                else None
            end
        end
      else if (nat_of_ascii c <? 32)%nat then None
      else prepend (String c "") (parse_chars s1)
  end.

Definition digit_of (c : ascii) (d : Decimal.uint) : Decimal.uint :=
  match nat_of_ascii c - 48 with
  | 0 => Decimal.D0 d
  | 1 => Decimal.D1 d
  | 2 => Decimal.D2 d
  | 3 => Decimal.D3 d
  | 4 => Decimal.D4 d
  | 5 => Decimal.D5 d
  | 6 => Decimal.D6 d
  | 7 => Decimal.D7 d
  | 8 => Decimal.D8 d
  | _ => Decimal.D9 d
  end%nat.

(** The longest run of digits at the head of [s]. *)
Fixpoint parse_digits (s : string) : Decimal.uint * string :=
  match s with
  | EmptyString => (Decimal.Nil, EmptyString)
  | String c s' =>
      if is_digit c
      then let (d, r) := parse_digits s' in (digit_of c d, r)
      else (Decimal.Nil, s)
  end.

(** The digits at the head of [s], as text. *)
Fixpoint take_digits (s : string) : string * string :=
  match s with
  | EmptyString => ("", "")
  | String c s' =>
      if is_digit c
      then let (ds, r) := take_digits s' in (String c ds, r)
      else ("", s)
  end.

(** What may follow a number in a text that parses: anything but a digit,
    a point or an exponent mark. *)
Definition number_ends (rest : string) : bool :=
  match rest with
  | EmptyString => true
  | String c _ =>
      let n := nat_of_ascii c in
      negb (is_digit c || (n =? 46) || (n =? 101) || (n =? 69))%nat
  end.

(** The integer part: digits, and no zero in front of another digit. *)
Definition parse_int (s : string) : option (string * string) :=
  let (ds, r) := take_digits s in
  match ds with
  | EmptyString => None
  | String c more =>
      if (c =? "0")%char && negb (more =? "") then None else Some (ds, r)
  end.

(** The fraction, if there is one: a point and at least one digit. *)
Definition parse_frac (s : string) : option (string * string) :=
  match s with
  | String c s' =>
      if (nat_of_ascii c =? 46)%nat then
        let (ds, r) := take_digits s' in
        if ds =? "" then None else Some (ds, r)
      else Some ("", s)
  | EmptyString => Some ("", s)
  end.

Definition parse_exp_digits (negative : bool) (s : string) : option (Z * string) :=
  match parse_digits s with
  | (Decimal.Nil, _) => None
  | (d, r) =>
      let e := Z.of_N (N.of_uint d) in
      Some (if negative then (- e)%Z else e, r)
  end.

(** The exponent, if there is one: [e] or [E], a sign or none, digits. *)
Definition parse_exp (s : string) : option (Z * string) :=
  match s with
  | String c s' =>
      if ((nat_of_ascii c =? 101) || (nat_of_ascii c =? 69))%nat then
        match s' with
        | String sign s'' =>
            if (nat_of_ascii sign =? 43)%nat then parse_exp_digits false s''
            else if (nat_of_ascii sign =? 45)%nat then parse_exp_digits true s''
            else parse_exp_digits false s'
        | EmptyString => None
        end
      else Some (0%Z, s)
  | EmptyString => Some (0%Z, s)
  end.

Definition parse_unsigned (negative : bool) (s : string) : option (value * string) :=
  match parse_int s with
  | None => None
  | Some (i, r1) =>
      match parse_frac r1 with
      | None => None
      | Some (f, r2) =>
          match parse_exp r2 with
          | None => None
          | Some (e, r3) => Some (VNum (decimal negative i f e), r3)
          end
      end
  end.

Definition parse_number (s : string) : option (value * string) :=
  match s with
  | EmptyString => None
  | String c s' =>
      if (nat_of_ascii c =? 45)%nat then parse_unsigned true s'
      else parse_unsigned false s
  end.

(** [strip pre s]: [s] without its prefix [pre]. *)
Fixpoint strip (pre s : string) : option string :=
  match pre with
  | EmptyString => Some s
  | String c pre' =>
      match s with
      | EmptyString => None
      | String c' s' => if (c =? c')%char then strip pre' s' else None
      end
  end.

(** One step of each of the three mutually recursive readers, with the
    readers for what is nested inside passed in. *)
Definition value_step
    (elements : string -> option (list value * string))
    (members : string -> option (list (string * value) * string))
    (s : string) : option (value * string) :=
  match skip_ws s with
  | EmptyString => None
  | String c r as t =>
      let n := nat_of_ascii c in
      if (n =? 110)%nat then
        option_map (fun r' => (VNull, r')) (strip "null" t)
      else if (n =? 116)%nat then
        option_map (fun r' => (VBool true, r')) (strip "true" t)
      else if (n =? 102)%nat then
        option_map (fun r' => (VBool false, r')) (strip "false" t)
      else if (n =? 34)%nat then
        match parse_chars r with
        | Some (str, r') => Some (VStr str, r')
        | None => None
        end
      else if (n =? 91)%nat then
        match skip_ws r with
        | EmptyString => None
        | String c' r' =>
            if (nat_of_ascii c' =? 93)%nat then Some (VArr [], r')
            else
              match elements r with
              | Some (items, r'') => Some (VArr items, r'')
              | None => None
              end
        end
      else if (n =? 123)%nat then
        match skip_ws r with
        | EmptyString => None
        | String c' r' =>
            if (nat_of_ascii c' =? 125)%nat then Some (VObj [], r')
            else
              match members r with
              | Some (props, r'') => Some (VObj props, r'')
              | None => None
              end
        end
      else parse_number t
  end.

(** An element, then a comma and more elements, or the closing bracket. *)
Definition elements_step
    (val : string -> option (value * string))
    (elements : string -> option (list value * string))
    (s : string) : option (list value * string) :=
  match val s with
  | None => None
  | Some (v, r) =>
      match skip_ws r with
      | EmptyString => None
      | String c r' =>
          if (nat_of_ascii c =? 44)%nat then
            match elements r' with
            | Some (vs, r'') => Some (v :: vs, r'')
            | None => None
            end
          else if (nat_of_ascii c =? 93)%nat then Some ([v], r')
          else None
      end
  end.

(** A member [key : value] assigned to the object read so far, then a
    comma and more members, or the closing brace. *)
Definition members_step
    (val : string -> option (value * string))
    (members : list (string * value) -> string
               -> option (list (string * value) * string))
    (acc : list (string * value)) (s : string)
  : option (list (string * value) * string) :=
  match skip_ws s with
  | EmptyString => None
  | String q r =>
      if (nat_of_ascii q =? 34)%nat then
        match parse_chars r with
        | None => None
        | Some (k, r1) =>
            match skip_ws r1 with
            | EmptyString => None
            | String colon r2 =>
                if (nat_of_ascii colon =? 58)%nat then
                  match val r2 with
                  | None => None
                  | Some (v, r3) =>
                      let acc := assign k v acc in
                      match skip_ws r3 with
                      | EmptyString => None
                      | String c r4 =>
                          if (nat_of_ascii c =? 44)%nat then members acc r4
                          else if (nat_of_ascii c =? 125)%nat then Some (acc, r4)
                          else None
                      end
                  end
                else None
            end
        end
      else None
  end.

(** One value, then the rest of the text.  [fuel] bounds the number of
    values, elements and members read. *)
Fixpoint parse_value (fuel : nat) (s : string) : option (value * string) :=
  match fuel with
  | O => None
  | S fuel => value_step (parse_elements fuel) (parse_members fuel []) s
  end

with parse_elements (fuel : nat) (s : string) : option (list value * string) :=
  match fuel with
  | O => None
  | S fuel => elements_step (parse_value fuel) (parse_elements fuel) s
  end

with parse_members (fuel : nat) (acc : list (string * value)) (s : string)
  : option (list (string * value) * string) :=
  match fuel with
  | O => None
  | S fuel => members_step (parse_value fuel) (parse_members fuel) acc s
  end.

(** [JSON.parse text]: one value and nothing but white space after it. *)
Definition JSON_parse (text : string) : option value :=
  match parse_value (String.length text) text with
  | Some (v, r) =>
      match skip_ws r with
      | EmptyString => Some v
      | _ => None
      end
  | None => None
  end.

(** A value [JSON.parse] can produce: no [undefined] inside, every number
    one that a JSON text denotes, and the keys of every object distinct. *)
Fixpoint distinct (l : list string) : bool :=
  match l with
  | [] => true
  | k :: l' => negb (existsb (String.eqb k) l') && distinct l'
  end.

Fixpoint is_json (v : value) : bool :=
  match v with
  | VUndefined => false
  | VNull | VBool _ | VStr _ => true
  | VNum x => number_ok x
  | VArr items => forallb is_json items
  | VObj props =>
      forallb (fun p => is_json (snd p)) props && distinct (keys props)
  end.

(** A value that JSON text writes without loss: a value [JSON.parse] can
    produce that holds no infinity and no negative zero. *)
Fixpoint lossless (v : value) : bool :=
  match v with
  | VUndefined => false
  | VNull | VBool _ | VStr _ => true
  | VNum x => number_exact x
  | VArr items => forallb lossless items
  | VObj props =>
      forallb (fun p => lossless (snd p)) props && distinct (keys props)
  end.

(** Indentation is made of white space. *)
Fixpoint all_ws (s : string) : bool :=
  match s with
  | EmptyString => true
  | String c s' => is_ws c && all_ws s'
  end.

(** The number of values, elements and members of a value. *)
Fixpoint size (v : value) : nat :=
  match v with
  | VArr items => S (list_sum (map (fun x => S (size x)) items))
  | VObj props => S (list_sum (map (fun p => S (size (snd p))) props))
  | _ => 1
  end.

(** What the round trip asks of one value, at any indentation, before any
    text that can follow a number, with fuel for its size. *)
Definition roundtrips (v : value) : Prop :=
  lossless v = true ->
  forall (indent rest : string) (fuel : nat),
    all_ws indent = true -> number_ends rest = true -> (size v <= fuel)%nat ->
    exists s, serialize indent v = Some s /\
              parse_value fuel (s ++ rest) = Some (v, rest).

(** The printed text of a value has at least as many characters as the
    value has nodes, so its length is fuel enough. *)
Definition fits (v : value) : Prop :=
  lossless v = true ->
  forall (indent s : string),
    serialize indent v = Some s -> (size v <= String.length s)%nat.

(** ** The program: [src/index.ts] *)

Open Scope js_scope.

Definition BASE_URL : string := "https://tradekix-alpha.vercel.app/api/v1".

(** The message of the [Error] thrown by [getApiKey]. *)
Definition missing_key_message : string :=
  "TRADEKIX_API_KEY environment variable is required." ++ nl ++
  "Get a free key (100 calls/day) at https://www.tradekix.ai/ai-agent-access" ++ nl ++
  "Or run: curl -X POST https://tradekix-alpha.vercel.app/api/v1/connect " ++
  "-H " ++ dq ++ "Content-Type: application/json" ++ dq ++ " " ++
  "-d '{" ++ dq ++ "agent_name" ++ dq ++ ":" ++ dq ++ "MyClaude" ++ dq ++ ","
  ++ dq ++ "email" ++ dq ++ ":" ++ dq ++ "you@example.com" ++ dq ++ ","
  ++ dq ++ "source" ++ dq ++ ":" ++ dq ++ "mcp" ++ dq ++ "}'".

(** [!key] on [string | undefined]. *)
Definition key_missing (key : option string) : bool :=
  match key with
  | None => true
  | Some k => k =? ""
  end.

Definition getApiKey : M string :=
  let* key := process_env_TRADEKIX_API_KEY in
  if key_missing key then throw (Error missing_key_message)
  else match key with
       | Some k => ret k
       | None => throw (Error missing_key_message)
       end.

(** A value of the parameter object.  Its TypeScript type is
    [Record<string, string>]; [makeRequest] also tests for [undefined] and
    [null]. *)
Inductive param : Type :=
| PUndefined
| PNull
| PString (s : string).

Definition Params : Type := list (string * param).

(** The body of the [forEach] callback:
    [if (v !== undefined && v !== null && v !== "") url.searchParams.set(k, v)]. *)
Definition add_param (url : URL) (kv : string * param) : URL :=
  match snd kv with
  | PUndefined => url
  | PNull => url
  | PString v => if v =? "" then url else URL_set (fst kv) v url
  end.

(** The URL [makeRequest] builds, before it is fetched. *)
Definition request_url (endpoint : string) (params : option Params) : URL :=
  let url := new_URL (BASE_URL ++ "/" ++ endpoint) in
  match params with
  | Some ps => fold_left add_param ps url
  | None => url
  end.

(** Object spread [{...src}] into the properties built so far. *)
Definition spread (src dst : list (string * value)) : list (string * value) :=
  fold_left (fun o kv => assign (fst kv) (snd kv) o) src dst.

(** The object literal returned when [data.success] is falsy. *)
Definition normalized_error (error upgrade retry_after_seconds : value) : value :=
  VObj (spread (if truthy retry_after_seconds
                then [("retry_after_seconds", retry_after_seconds)] else [])
         (spread (if truthy upgrade then [("upgrade", upgrade)] else [])
            (assign "error" error []))).

Definition makeRequest (endpoint : string) (params : option Params) : M value :=
  let* apiKey := getApiKey in
  let url := request_url endpoint params in
  let* resp := fetch (URL_toString url) [("X-API-Key", apiKey)] in
  let* data := json resp in
  let* success := lift (get data "success") in
  if negb (truthy success) then
    let* error := lift (get data "error") in
    let* upgrade := lift (get data "upgrade") in
    let* retry_after_seconds := lift (get data "retry_after_seconds") in
    ret (normalized_error error upgrade retry_after_seconds)
  else
    lift (get data "data").

(** *** Tool results *)

Record ContentBlock : Type := mkContent {
  type : string;
  text : option string    (* [None]: JSON.stringify gave [undefined] *)
}.

Record ToolResult : Type := mkToolResult {
  content : list ContentBlock
}.

(** [{ content: [{ type: "text", text: JSON.stringify(data, null, 2) }] }] *)
Definition text_result (data : value) : ToolResult :=
  mkToolResult [mkContent "text" (JSON_stringify data)].

(** *** Argument schemas *)

Inductive Impact : Type := low | medium | high.
Inductive Party : Type := Democrat | Republican.
Inductive TradeType : Type := buy | sell.
Inductive Sentiment : Type := bullish | bearish | neutral.

Definition Impact_str (x : Impact) : string :=
  match x with low => "low" | medium => "medium" | high => "high" end.
Definition Party_str (x : Party) : string :=
  match x with Democrat => "Democrat" | Republican => "Republican" end.
Definition TradeType_str (x : TradeType) : string :=
  match x with buy => "buy" | sell => "sell" end.
Definition Sentiment_str (x : Sentiment) : string :=
  match x with bullish => "bullish" | bearish => "bearish" | neutral => "neutral" end.

(** [String(b)] on a boolean. *)
Definition String_of_bool (b : bool) : string := if b then "true" else "false".

(** [if (x) params.k = x;] on an optional string argument. *)
Definition assign_if (k : string) (x : option string) (params : Params) : Params :=
  match x with
  | Some s => if s =? "" then params else assign k (PString s) params
  | None => params
  end.

(** [if (x !== undefined) params.k = String(x);] on an optional boolean. *)
Definition assign_defined (k : string) (x : option bool) (params : Params) : Params :=
  match x with
  | Some b => assign k (PString (String_of_bool b)) params
  | None => params
  end.

(** *** The ten handlers *)

Definition tradekix_market_overview : M ToolResult :=
  let* data := makeRequest "market/overview" None in
  ret (text_result data).

Definition prices_params (symbol : string) (from to limit : option string) : Params :=
  let params := [("symbol", PString symbol)] in
  let params := assign_if "from" from params in
  let params := assign_if "to" to params in
  let params := assign_if "limit" limit params in
  params.

Definition tradekix_prices (symbol : string) (from to limit : option string)
  : M ToolResult :=
  let params := prices_params symbol from to limit in
  let* data := makeRequest "market/prices" (Some params) in
  ret (text_result data).

Definition indices_params (region country : option string) : Params :=
  let params := [] in
  let params := assign_if "region" region params in
  let params := assign_if "country" country params in
  params.

Definition tradekix_indices (region country : option string) : M ToolResult :=
  let params := indices_params region country in
  let* data := makeRequest "market/indices" (Some params) in
  ret (text_result data).

Definition forex_params (symbol : option string) : Params :=
  let params := [] in
  let params := assign_if "symbol" symbol params in
  params.

Definition tradekix_forex (symbol : option string) : M ToolResult :=
  let params := forex_params symbol in
  let* data := makeRequest "market/forex" (Some params) in
  ret (text_result data).

Definition tradekix_earnings : M ToolResult :=
  let* data := makeRequest "events/earnings" None in
  ret (text_result data).

Definition economic_events_params (country : option string)
    (impact : option Impact) (from to : option string) : Params :=
  let params := [] in
  let params := assign_if "country" country params in
  let params := assign_if "impact" (option_map Impact_str impact) params in
  let params := assign_if "from" from params in
  let params := assign_if "to" to params in
  params.

Definition tradekix_economic_events (country : option string)
    (impact : option Impact) (from to : option string) : M ToolResult :=
  let params := economic_events_params country impact from to in
  let* data := makeRequest "events/economic" (Some params) in
  ret (text_result data).

Definition congressional_trades_params (symbol politician : option string)
    (party : option Party) (type : option TradeType) (from to : option string)
  : Params :=
  let params := [] in
  let params := assign_if "symbol" symbol params in
  let params := assign_if "politician" politician params in
  let params := assign_if "party" (option_map Party_str party) params in
  let params := assign_if "type" (option_map TradeType_str type) params in
  let params := assign_if "from" from params in
  let params := assign_if "to" to params in
  params.

Definition tradekix_congressional_trades (symbol politician : option string)
    (party : option Party) (type : option TradeType) (from to : option string)
  : M ToolResult :=
  let params := congressional_trades_params symbol politician party type from to in
  let* data := makeRequest "trades/congressional" (Some params) in
  ret (text_result data).

Definition sentiment_params (sentiment : option Sentiment)
    (financial_only : option bool) : Params :=
  let params := [] in
  let params := assign_if "sentiment" (option_map Sentiment_str sentiment) params in
  let params := assign_defined "financial_only" financial_only params in
  params.

Definition tradekix_sentiment (sentiment : option Sentiment)
    (financial_only : option bool) : M ToolResult :=
  let params := sentiment_params sentiment financial_only in
  let* data := makeRequest "social/sentiment" (Some params) in
  ret (text_result data).

Definition tweets_params (author symbol : option string)
    (sentiment : option Sentiment) (financial_only : option bool) : Params :=
  let params := [] in
  let params := assign_if "author" author params in
  let params := assign_if "symbol" symbol params in
  let params := assign_if "sentiment" (option_map Sentiment_str sentiment) params in
  let params := assign_defined "financial_only" financial_only params in
  params.

Definition tradekix_tweets (author symbol : option string)
    (sentiment : option Sentiment) (financial_only : option bool) : M ToolResult :=
  let params := tweets_params author symbol sentiment financial_only in
  let* data := makeRequest "social/tweets" (Some params) in
  ret (text_result data).

Definition tradekix_news : M ToolResult :=
  let* data := makeRequest "news/summary" None in
  ret (text_result data).

(** *** The tool catalog: a validated call and its dispatch *)

Inductive ToolCall : Type :=
| call_market_overview
| call_prices (symbol : string) (from to limit : option string)
| call_indices (region country : option string)
| call_forex (symbol : option string)
| call_earnings
| call_economic_events (country : option string) (impact : option Impact)
    (from to : option string)
| call_congressional_trades (symbol politician : option string)
    (party : option Party) (type : option TradeType) (from to : option string)
| call_sentiment (sentiment : option Sentiment) (financial_only : option bool)
| call_tweets (author symbol : option string) (sentiment : option Sentiment)
    (financial_only : option bool)
| call_news.

Definition handler (c : ToolCall) : M ToolResult :=
  match c with
  | call_market_overview => tradekix_market_overview
  | call_prices symbol from to limit => tradekix_prices symbol from to limit
  | call_indices region country => tradekix_indices region country
  | call_forex symbol => tradekix_forex symbol
  | call_earnings => tradekix_earnings
  | call_economic_events country impact from to =>
      tradekix_economic_events country impact from to
  | call_congressional_trades symbol politician party type from to =>
      tradekix_congressional_trades symbol politician party type from to
  | call_sentiment sentiment financial_only =>
      tradekix_sentiment sentiment financial_only
  | call_tweets author symbol sentiment financial_only =>
      tradekix_tweets author symbol sentiment financial_only
  | call_news => tradekix_news
  end.

(** The endpoint and parameter object a call hands to [makeRequest]. *)
Definition call_endpoint (c : ToolCall) : string :=
  match c with
  | call_market_overview => "market/overview"
  | call_prices _ _ _ _ => "market/prices"
  | call_indices _ _ => "market/indices"
  | call_forex _ => "market/forex"
  | call_earnings => "events/earnings"
  | call_economic_events _ _ _ _ => "events/economic"
  | call_congressional_trades _ _ _ _ _ _ => "trades/congressional"
  | call_sentiment _ _ => "social/sentiment"
  | call_tweets _ _ _ _ => "social/tweets"
  | call_news => "news/summary"
  end.

Definition call_params (c : ToolCall) : option Params :=
  match c with
  | call_market_overview | call_earnings | call_news => None
  | call_prices symbol from to limit => Some (prices_params symbol from to limit)
  | call_indices region country => Some (indices_params region country)
  | call_forex symbol => Some (forex_params symbol)
  | call_economic_events country impact from to =>
      Some (economic_events_params country impact from to)
  | call_congressional_trades symbol politician party type from to =>
      Some (congressional_trades_params symbol politician party type from to)
  | call_sentiment sentiment financial_only =>
      Some (sentiment_params sentiment financial_only)
  | call_tweets author symbol sentiment financial_only =>
      Some (tweets_params author symbol sentiment financial_only)
  end.

(** ** What one invocation does, in closed form *)

(** The request [makeRequest] issues once the credential [key] is read. *)
Definition outbound_request (endpoint : string) (params : option Params)
    (key : string) : Request :=
  mkRequest (URL_toString (request_url endpoint params)) [("X-API-Key", key)].

(** The field [data.k] of a body that is neither [null] nor [undefined]. *)
Definition field (data : value) (k : string) : value :=
  match get data k with
  | inr x => x
  | inl _ => VUndefined
  end.

(** The part of [makeRequest] after [await resp.json()]. *)
Definition envelope_outcome (data : value) : exn + value :=
  match data with
  | VUndefined | VNull => inl TypeError
  | _ =>
      if truthy (field data "success") then inr (field data "data")
      else inr (normalized_error (field data "error") (field data "upgrade")
                  (field data "retry_after_seconds"))
  end.

Definition wrap (r : exn + value) : exn + ToolResult :=
  match r with
  | inl e => inl e
  | inr data => inr (text_result data)
  end.

(** The provisioning call the error message of [getApiKey] spells out. *)
Definition provisioning_call : string :=
  "curl -X POST https://tradekix-alpha.vercel.app/api/v1/connect " ++
  "-H " ++ dq ++ "Content-Type: application/json" ++ dq ++ " " ++
  "-d '{" ++ dq ++ "agent_name" ++ dq ++ ":" ++ dq ++ "MyClaude" ++ dq ++ ","
  ++ dq ++ "email" ++ dq ++ ":" ++ dq ++ "you@example.com" ++ dq ++ ","
  ++ dq ++ "source" ++ dq ++ ":" ++ dq ++ "mcp" ++ dq ++ "}'".

(** A parameter value the adapter does not forward. *)
Definition absent_or_empty (v : option param) : bool :=
  match v with
  | None | Some PUndefined | Some PNull => true
  | Some (PString s) => s =? ""
  end.

(** The request a validated call sends, for the credential [key]. *)
Definition call_request (c : ToolCall) (key : string) : Request :=
  outbound_request (call_endpoint c) (call_params c) key.

(** ** The arguments of a call, and what reaches the query *)

(** The entries of a parameter object that [makeRequest] forwards, in the
    order of [Object.entries]. *)
Definition kept (ps : Params) : list (string * string) :=
  flat_map (fun kv => match snd kv with
                      | PString v => if v =? "" then [] else [(fst kv, v)]
                      | _ => []
                      end) ps.

(** The arguments a handler destructures, in the order in which it puts
    them into the parameter object, each as the string it would forward. *)
Definition call_arguments (c : ToolCall) : list (string * option string) :=
  match c with
  | call_market_overview | call_earnings | call_news => []
  | call_prices symbol from to limit =>
      [("symbol", Some symbol); ("from", from); ("to", to); ("limit", limit)]
  | call_indices region country => [("region", region); ("country", country)]
  | call_forex symbol => [("symbol", symbol)]
  | call_economic_events country impact from to =>
      [("country", country); ("impact", option_map Impact_str impact);
       ("from", from); ("to", to)]
  | call_congressional_trades symbol politician party type from to =>
      [("symbol", symbol); ("politician", politician);
       ("party", option_map Party_str party);
       ("type", option_map TradeType_str type); ("from", from); ("to", to)]
  | call_sentiment sentiment financial_only =>
      [("sentiment", option_map Sentiment_str sentiment);
       ("financial_only", option_map String_of_bool financial_only)]
  | call_tweets author symbol sentiment financial_only =>
      [("author", author); ("symbol", symbol);
       ("sentiment", option_map Sentiment_str sentiment);
       ("financial_only", option_map String_of_bool financial_only)]
  end.

(** The arguments that are given and not the empty string. *)
Definition forwarded (args : list (string * option string))
  : list (string * string) :=
  flat_map (fun kx => match snd kx with
                      | Some v => if v =? "" then [] else [(fst kx, v)]
                      | None => []
                      end) args.

(** A URL text: the base, then the query when there is one. *)
Definition with_query (base : string) (l : list (string * string)) : string :=
  match l with
  | [] => base
  | _ => base ++ "?" ++ query_string l
  end.




Fixpoint count_char (c : ascii) (s : string) : nat :=
  match s with
  | EmptyString => 0
  | String c' s' => (if (c' =? c)%char then 1 else 0) + count_char c s'
  end.

(** A property that holds a value, as opposed to [undefined]. *)
Definition defined (v : value) : bool :=
  match v with
  | VUndefined => false
  | _ => true
  end.

Definition is_object (v : value) : bool :=
  match v with
  | VObj _ => true
  | _ => false
  end.

(** ** Sample worlds *)

Definition sample_key : string := "tk_live_0123".

(** An upstream that answers every request with the same parsed body. *)
Definition sample_world (key : option string) (body : option value) : World :=
  mkWorld key (fun _ _ => Fulfilled (mkResponse body)).

(** An upstream that cannot be reached: every fetch rejects. *)
Definition unreachable_world : World :=
  mkWorld (Some sample_key) (fun _ _ => Rejected).

(** [{success: false, error: "rate limited", retry_after_seconds: 30}] *)
Definition rate_limited : value :=
  VObj [("success", VBool false); ("error", VStr "rate limited");
        ("retry_after_seconds", VNum (integer 30))].

(** [{success: false, error: "rate limited", retry_after_seconds: 0}] *)
Definition rate_limited_retry_now : value :=
  VObj [("success", VBool false); ("error", VStr "rate limited");
        ("retry_after_seconds", VNum (integer 0))].

(** The body texts of [{success: true, data: 1e999}] and of
    [{success: true, data: -0}], which [resp.json()] reads with
    [JSON.parse]. *)
Definition overflowing_body : string :=
  "{" ++ dq ++ "success" ++ dq ++ ":true," ++ dq ++ "data" ++ dq ++ ":1e999}".

Definition negative_zero_body : string :=
  "{" ++ dq ++ "success" ++ dq ++ ":true," ++ dq ++ "data" ++ dq ++ ":-0}".

(** * Properties *)

Section Invocation.

Variable w : World.
Variable log : list Request.

Lemma getApiKey_missing :
  key_missing (TRADEKIX_API_KEY w) = true ->
  getApiKey w log = (inl (Error missing_key_message), log).
Proof.
  intros H. unfold getApiKey, bind, process_env_TRADEKIX_API_KEY.
  now rewrite H.
Qed.

Lemma getApiKey_present (key : string) :
  TRADEKIX_API_KEY w = Some key -> key <> "" ->
  getApiKey w log = (inr key, log).
Proof.
  intros H Hne. unfold getApiKey, bind, process_env_TRADEKIX_API_KEY.
  rewrite H. simpl. destruct (String.eqb_spec key ""); [contradiction|reflexivity].
Qed.

Lemma lift_get_run (data : value) (k : string) (l : list Request) :
  lift (get data k) w l =
  match data with
  | VUndefined | VNull => (inl TypeError, l)
  | _ => (inr (field data k), l)
  end.
Proof.
  unfold field. destruct data; simpl; try reflexivity.
  destruct (lookup k props); reflexivity.
Qed.

Lemma makeRequest_missing (endpoint : string) (params : option Params) :
  key_missing (TRADEKIX_API_KEY w) = true ->
  makeRequest endpoint params w log = (inl (Error missing_key_message), log).
Proof.
  intros H. unfold makeRequest, bind. now rewrite getApiKey_missing.
Qed.

Lemma makeRequest_present (endpoint : string) (params : option Params)
    (key : string) :
  TRADEKIX_API_KEY w = Some key -> key <> "" ->
  makeRequest endpoint params w log =
  let r := outbound_request endpoint params key in
  match network w log r with
  | Rejected => (inl FetchFailed, (log ++ [r])%list)
  | Fulfilled (mkResponse None) => (inl SyntaxError, (log ++ [r])%list)
  | Fulfilled (mkResponse (Some data)) => (envelope_outcome data, (log ++ [r])%list)
  end.
Proof.
  intros H Hne. unfold makeRequest.
  unfold bind at 1. rewrite (getApiKey_present key H Hne).
  unfold bind at 1. unfold fetch, outbound_request. cbv zeta.
  destruct (network w log _) as [|[[data|]]]; try reflexivity.
  unfold bind at 1. unfold json, ret.
  unfold bind at 1. rewrite lift_get_run.
  destruct data; try reflexivity;
    unfold envelope_outcome;
    match goal with
    | |- context [truthy (field ?d "success")] =>
        destruct (truthy (field d "success")); cbn [negb];
        [ rewrite lift_get_run; reflexivity
        | unfold bind; rewrite !lift_get_run; reflexivity ]
    end.
Qed.

Lemma handler_unfold (c : ToolCall) :
  handler c =
  (let* data := makeRequest (call_endpoint c) (call_params c) in
   ret (text_result data)).
Proof. destruct c; reflexivity. Qed.

Lemma handler_missing (c : ToolCall) :
  key_missing (TRADEKIX_API_KEY w) = true ->
  handler c w log = (inl (Error missing_key_message), log).
Proof.
  intros H. rewrite handler_unfold. unfold bind.
  now rewrite makeRequest_missing.
Qed.

Lemma handler_present (c : ToolCall) (key : string) :
  TRADEKIX_API_KEY w = Some key -> key <> "" ->
  handler c w log =
  let r := call_request c key in
  match network w log r with
  | Rejected => (inl FetchFailed, (log ++ [r])%list)
  | Fulfilled (mkResponse None) => (inl SyntaxError, (log ++ [r])%list)
  | Fulfilled (mkResponse (Some data)) =>
      (wrap (envelope_outcome data), (log ++ [r])%list)
  end.
Proof.
  intros H Hne. rewrite handler_unfold. unfold bind.
  rewrite (makeRequest_present _ _ key H Hne). cbv zeta.
  unfold call_request.
  destruct (network w log _) as [|[[data|]]]; try reflexivity.
  destruct (envelope_outcome data); reflexivity.
Qed.

End Invocation.

Lemma key_missing_false (k : option string) :
  key_missing k = false -> exists key, k = Some key /\ key <> "".
Proof.
  destruct k as [key|]; simpl; [|discriminate].
  intros H. exists key. split; [reflexivity|].
  intros ->. discriminate.
Qed.

(** ** Association lists, search parameters, substrings *)

Lemma lookup_In {A : Type} (k : string) (a : A) (l : list (string * A)) :
  lookup k l = Some a -> In (k, a) l.
Proof.
  induction l as [|[k' a'] l IH]; simpl; [discriminate|].
  destruct (String.eqb_spec k' k) as [->|Hne].
  - intros [= ->]. now left.
  - intros H. right. now apply IH.
Qed.

Lemma In_lookup {A : Type} (k : string) (a : A) (l : list (string * A)) :
  NoDup (keys l) -> In (k, a) l -> lookup k l = Some a.
Proof.
  induction l as [|[k' a'] l IH]; simpl; [intros _ []|].
  intros Hnd [Heq|Hin].
  - injection Heq as -> ->. now rewrite String.eqb_refl.
  - inversion Hnd as [|? ? Hnotin Hnd']; subst.
    destruct (String.eqb_spec k' k) as [->|Hne].
    + exfalso. apply Hnotin. unfold keys.
      change k with (fst (k, a)). now apply in_map.
    + now apply IH.
Qed.

Lemma searchParams_set_In (n x k v : string) (l : list (string * string)) :
  In (k, v) (searchParams_set n x l) -> (k, v) = (n, x) \/ In (k, v) l.
Proof.
  induction l as [|[n' v'] l IH]; simpl.
  - intros [H|[]]. now left.
  - destruct (String.eqb_spec n' n) as [->|Hne]; simpl.
    + intros [H|H]; [now left|].
      apply filter_In in H. right. right. apply H.
    + intros [H|H]; [right; now left|].
      destruct (IH H) as [?|?]; [now left|right; now right].
Qed.

Lemma searchParams_set_here (n x : string) (l : list (string * string)) :
  In (n, x) (searchParams_set n x l).
Proof.
  induction l as [|[n' v'] l IH]; simpl; [now left|].
  destruct (String.eqb_spec n' n) as [->|Hne]; simpl; [now left|now right].
Qed.

Lemma searchParams_set_other (n x k v : string) (l : list (string * string)) :
  n <> k -> In (k, v) l -> In (k, v) (searchParams_set n x l).
Proof.
  intros Hne. induction l as [|[n' v'] l IH]; simpl; [intros []|].
  intros [Heq|Hin].
  - injection Heq as -> ->.
    destruct (String.eqb_spec k n) as [->|_]; [contradiction|now left].
  - destruct (String.eqb_spec n' n) as [->|_]; simpl.
    + right. apply filter_In. split; [assumption|]. simpl.
      destruct (String.eqb_spec k n) as [->|_]; [contradiction|reflexivity].
    + right. now apply IH.
Qed.

(** Every search parameter of the built URL was there before or comes from
    an entry of the parameter object with a non-empty string value. *)
Lemma add_params_sound (ps : Params) (u : URL) (k v : string) :
  In (k, v) (searchParams (fold_left add_param ps u)) ->
  In (k, v) (searchParams u) \/ (In (k, PString v) ps /\ v <> "").
Proof.
  revert u. induction ps as [|[k0 p0] ps IH]; intros u; simpl; [now left|].
  intros H. destruct (IH _ H) as [H1|[H1 H2]]; [|right; split; [now right|assumption]].
  unfold add_param in H1. simpl in H1.
  destruct p0 as [| |s]; try (now left).
  destruct (String.eqb_spec s "") as [->|Hs]; [now left|].
  simpl in H1. apply searchParams_set_In in H1. destruct H1 as [[= -> ->]|H1].
  - right. split; [now left|assumption].
  - now left.
Qed.

Lemma add_params_keep (ps : Params) (u : URL) (k v : string) :
  ~ In k (keys ps) ->
  In (k, v) (searchParams u) ->
  In (k, v) (searchParams (fold_left add_param ps u)).
Proof.
  revert u. induction ps as [|[k0 p0] ps IH]; intros u Hk Hin; simpl; [assumption|].
  simpl in Hk. apply IH; [tauto|].
  unfold add_param. simpl. destruct p0 as [| |s]; try assumption.
  destruct (s =? ""); [assumption|]. simpl.
  apply searchParams_set_other; [|assumption]. tauto.
Qed.

(** Every entry with a non-empty string value becomes a search parameter. *)
Lemma add_params_complete (ps : Params) (u : URL) (k v : string) :
  NoDup (keys ps) -> In (k, PString v) ps -> v <> "" ->
  In (k, v) (searchParams (fold_left add_param ps u)).
Proof.
  revert u. induction ps as [|[k0 p0] ps IH]; intros u Hnd Hin Hv; [destruct Hin|].
  simpl in Hnd. inversion Hnd as [|? ? Hnotin Hnd']; subst.
  destruct Hin as [[= -> ->]|Hin]; simpl.
  - apply add_params_keep; [assumption|].
    unfold add_param. simpl.
    destruct (String.eqb_spec v "") as [->|_]; [contradiction|].
    simpl. apply searchParams_set_here.
  - now apply IH.
Qed.

Lemma fold_add_param_base (ps : Params) (u : URL) :
  url_base (fold_left add_param ps u) = url_base u.
Proof.
  revert u. induction ps as [|[k0 p0] ps IH]; intros u; simpl; [reflexivity|].
  rewrite IH. unfold add_param. simpl.
  destruct p0 as [| |s]; try reflexivity. now destruct (s =? "").
Qed.

Lemma absent_or_empty_false (o : option param) :
  absent_or_empty o = false <-> exists v, o = Some (PString v) /\ v <> "".
Proof.
  split.
  - destruct o as [[| |s]|]; simpl; try discriminate.
    intros H. exists s. split; [reflexivity|]. intros ->. discriminate.
  - intros [v [-> Hv]]. simpl.
    destruct (String.eqb_spec v ""); [contradiction|reflexivity].
Qed.

(** The search parameters of the URL [makeRequest] builds are exactly the
    entries of the parameter object with a non-empty string value. *)
Lemma request_url_params (endpoint : string) (ps : Params) (k v : string) :
  NoDup (keys ps) ->
  In (k, v) (searchParams (request_url endpoint (Some ps))) <->
  (lookup k ps = Some (PString v) /\ v <> "").
Proof.
  intros Hnd. unfold request_url. split.
  - intros H. apply add_params_sound in H. destruct H as [[]|[H1 H2]].
    split; [now apply In_lookup|assumption].
  - intros [H1 H2]. apply add_params_complete; [assumption| |assumption].
    now apply lookup_In.
Qed.

Lemma request_url_omits (endpoint : string) (ps : Params) (k : string) :
  NoDup (keys ps) ->
  absent_or_empty (lookup k ps) = true ->
  ~ In k (keys (searchParams (request_url endpoint (Some ps)))).
Proof.
  intros Hnd Habs Hin. unfold keys in Hin. apply in_map_iff in Hin.
  destruct Hin as [[k' v] [Hk Hin]]. simpl in Hk. subst k'.
  apply request_url_params in Hin; [|assumption].
  assert (absent_or_empty (lookup k ps) = false) as Hf
    by (apply absent_or_empty_false; now exists v).
  congruence.
Qed.








(** ** Round trip of JSON.stringify and JSON.parse *)

Lemma append_assoc (a b c : string) : (a ++ b) ++ c = a ++ (b ++ c).
Proof. induction a as [|x a IH]; simpl; [reflexivity|now rewrite IH]. Qed.

Lemma append_nil_r (s : string) : s ++ "" = s.
Proof. induction s as [|c s IH]; simpl; [reflexivity|now rewrite IH]. Qed.

Lemma length_append (a b : string) :
  String.length (a ++ b) = (String.length a + String.length b)%nat.
Proof. induction a as [|x a IH]; simpl; [reflexivity|now rewrite IH]. Qed.

Lemma all_ws_app (a b : string) :
  all_ws a = true -> all_ws b = true -> all_ws (a ++ b) = true.
Proof.
  induction a as [|x a IH]; simpl; [trivial|].
  intros H Hb. apply andb_true_iff in H. destruct H as [H1 H2].
  rewrite H1. now apply IH.
Qed.

Lemma skip_ws_app (a x : string) :
  all_ws a = true -> skip_ws (a ++ x) = skip_ws x.
Proof.
  induction a as [|c a IH]; simpl; [reflexivity|].
  intros H. apply andb_true_iff in H. destruct H as [H1 H2].
  rewrite H1. now apply IH.
Qed.

Lemma skip_ws_nl_indent (indent x : string) :
  all_ws indent = true -> skip_ws (nl ++ indent ++ x) = skip_ws x.
Proof. intros H. simpl. now apply skip_ws_app. Qed.

(** *** Strings *)

Lemma parse_chars_quote_char (c : ascii) (rest : string) :
  parse_chars (quote_char c ++ rest) = prepend (String c "") (parse_chars rest).
Proof.
  destruct c as [[] [] [] [] [] [] [] []]; reflexivity.
Qed.

Lemma parse_chars_quote_body (s rest : string) :
  parse_chars (quote_body s ++ dq ++ rest) = Some (s, rest).
Proof.
  induction s as [|c s IH]; [reflexivity|].
  simpl quote_body. rewrite append_assoc, parse_chars_quote_char, IH.
  reflexivity.
Qed.

Lemma quote_unfold (s rest : string) :
  quote s ++ rest = String "034"%char (quote_body s ++ dq ++ rest).
Proof. unfold quote. simpl. now rewrite append_assoc. Qed.

(** *** Numbers *)

Lemma parse_digits_uint (d : Decimal.uint) (rest : string) :
  match rest with
  | EmptyString => True
  | String c _ => is_digit c = false
  end ->
  parse_digits (uint_to_string d ++ rest) = (d, rest).
Proof.
  intros Hrest. induction d; simpl;
    try (rewrite IHd; reflexivity).
  destruct rest as [|c r]; [reflexivity|]. simpl. now rewrite Hrest.
Qed.

Lemma number_ends_digit (rest : string) :
  number_ends rest = true ->
  match rest with
  | EmptyString => True
  | String c _ => is_digit c = false
  end.
Proof.
  destruct rest as [|c r]; [trivial|]. unfold number_ends.
  destruct (is_digit c); [discriminate|reflexivity].
Qed.

Lemma take_digits_app (ds rest : string) :
  all_digits ds = true ->
  match rest with
  | EmptyString => True
  | String c _ => is_digit c = false
  end ->
  take_digits (ds ++ rest) = (ds, rest).
Proof.
  intros Hds Hrest. induction ds as [|c ds IH]; simpl.
  - destruct rest as [|c r]; [reflexivity|]. simpl. now rewrite Hrest.
  - simpl in Hds. apply andb_true_iff in Hds. destruct Hds as [Hc Hds].
    now rewrite Hc, (IH Hds).
Qed.

Lemma all_digits_app (a b : string) :
  all_digits (a ++ b) = all_digits a && all_digits b.
Proof.
  induction a as [|c a IH]; simpl; [reflexivity|].
  now rewrite IH, andb_assoc.
Qed.

Lemma all_digits_zeros (m : nat) : all_digits (zeros m) = true.
Proof. induction m; simpl; [reflexivity|assumption]. Qed.

Lemma length_zeros (m : nat) : String.length (zeros m) = m.
Proof. induction m; simpl; [reflexivity|now rewrite IHm]. Qed.

Lemma strip_leading_zeros (m : nat) (a : string) :
  strip_leading (zeros m ++ a) = strip_leading a.
Proof. induction m; simpl; [reflexivity|assumption]. Qed.

Lemma strip_trailing_zeros (a : string) (m : nat) :
  strip_trailing (a ++ zeros m) = strip_trailing a.
Proof.
  induction a as [|c a IH]; simpl.
  - induction m; simpl; [reflexivity|]. now rewrite IHm.
  - now rewrite IH.
Qed.

Lemma split_at_app (m : nat) (s : string) :
  fst (split_at m s) ++ snd (split_at m s) = s.
Proof.
  revert s. induction m as [|m IH]; intros s; [reflexivity|].
  destruct s as [|c s]; [reflexivity|]. simpl.
  specialize (IH s). destruct (split_at m s). simpl in *. now rewrite IH.
Qed.

Lemma split_at_length (m : nat) (s : string) :
  (m <= String.length s)%nat -> String.length (fst (split_at m s)) = m.
Proof.
  revert s. induction m as [|m IH]; intros s H; [reflexivity|].
  destruct s as [|c s]; [simpl in H; lia|]. simpl in *.
  specialize (IH s ltac:(lia)). destruct (split_at m s). simpl in *. now rewrite IH.
Qed.

(** What [canonical] says of the digits. *)
Lemma canonical_inv (ds : string) :
  canonical ds = true ->
  all_digits ds = true /\ strip_trailing ds = ds /\
  exists d more, ds = String d more /\ (d =? "0")%char = false.
Proof.
  unfold canonical. intros H.
  apply andb_true_iff in H. destruct H as [H H4].
  apply andb_true_iff in H. destruct H as [H H3].
  apply andb_true_iff in H. destruct H as [H1 H2].
  apply String.eqb_eq in H3, H4.
  split; [assumption|]. split; [assumption|].
  destruct ds as [|d more]; [discriminate|].
  exists d, more. split; [reflexivity|].
  simpl in H3. destruct (d =? "0")%char eqn:E; [|reflexivity].
  exfalso. clear -H3.
  assert (forall s, String.length (strip_leading s) <= String.length s)%nat as Hlen.
  { induction s as [|c s IH]; simpl; [lia|].
    destruct (c =? "0")%char; simpl; lia. }
  specialize (Hlen more). rewrite H3 in Hlen. simpl in Hlen. lia.
Qed.

(** The number that digits between zeros stand for. *)
Lemma classify_in_range (negative : bool) (ds : string) (n : Z) :
  in_range ds n = true -> classify negative ds n = Finite negative ds n.
Proof.
  unfold in_range, classify. intros H. apply andb_true_iff in H.
  destruct H as [Ho Hu]. apply negb_true_iff in Ho, Hu. now rewrite Ho, Hu.
Qed.

Lemma number_exact_inv (negative : bool) (ds : string) (n : Z) :
  number_exact (Finite negative ds n) = true ->
  canonical ds = true /\ in_range ds n = true.
Proof. intros H. now apply andb_true_iff in H. Qed.

(** The number that digits between zeros stand for, inside the range. *)
Lemma decimal_canonical (negative : bool) (i f ds : string) (z t : nat) (e n : Z) :
  canonical ds = true -> in_range ds n = true ->
  i ++ f = zeros z ++ ds ++ zeros t ->
  n = (Z.of_nat (String.length i) - Z.of_nat z + e)%Z ->
  decimal negative i f e = Finite negative ds n.
Proof.
  intros Hc Hr Hif Hn.
  destruct (canonical_inv ds Hc) as [_ [Ht [d [more [Eds Hd]]]]].
  rewrite <- (classify_in_range negative ds n Hr). subst ds.
  unfold decimal. rewrite Hif.
  rewrite strip_leading_zeros.
  assert (strip_leading (String d more ++ zeros t) = String d more ++ zeros t)
    as -> by (simpl; now rewrite Hd).
  rewrite strip_trailing_zeros, Ht.
  rewrite !length_append, length_zeros.
  f_equal. lia.
Qed.

Lemma parse_frac_none (rest : string) :
  number_ends rest = true -> parse_frac rest = Some ("", rest).
Proof.
  destruct rest as [|c r]; [reflexivity|]. unfold number_ends, parse_frac.
  intros H. apply negb_true_iff in H.
  apply orb_false_iff in H. destruct H as [H _].
  apply orb_false_iff in H. destruct H as [H _].
  apply orb_false_iff in H. destruct H as [_ H].
  now rewrite H.
Qed.

Lemma parse_exp_none (rest : string) :
  number_ends rest = true -> parse_exp rest = Some (0%Z, rest).
Proof.
  destruct rest as [|c r]; [reflexivity|]. unfold number_ends, parse_exp.
  intros H. apply negb_true_iff in H.
  apply orb_false_iff in H. destruct H as [H H69].
  apply orb_false_iff in H. destruct H as [_ H101].
  now rewrite H101, H69.
Qed.

Lemma parse_int_digits (i rest : string) (d : ascii) (more : string) :
  i = String d more ->
  all_digits i = true -> (d =? "0")%char = false ->
  match rest with
  | EmptyString => True
  | String c _ => is_digit c = false
  end ->
  parse_int (i ++ rest) = Some (i, rest).
Proof.
  intros -> Hds Hd Hrest. unfold parse_int.
  rewrite (take_digits_app _ _ Hds Hrest). now rewrite Hd.
Qed.

Lemma parse_frac_point (f rest : string) :
  all_digits f = true -> f <> "" ->
  match rest with
  | EmptyString => True
  | String c _ => is_digit c = false
  end ->
  parse_frac ("." ++ f ++ rest) = Some (f, rest).
Proof.
  intros Hf Hne Hrest. unfold parse_frac.
  change ("." ++ f ++ rest) with (String "." (f ++ rest)). cbv iota beta.
  change (nat_of_ascii "." =? 46)%nat with true. cbv iota.
  rewrite (take_digits_app f rest Hf Hrest).
  destruct (String.eqb_spec f ""); [contradiction|reflexivity].
Qed.

(** The exponent part [e+21], [e-7] reads back. *)
Lemma parse_exp_exponent (e : Z) (rest : string) :
  number_ends rest = true ->
  parse_exp ("e" ++ (if (0 <? e)%Z then "+" else "-")
               ++ uint_to_string (N.to_uint (Z.to_N (Z.abs e))) ++ rest)
  = Some (e, rest).
Proof.
  intros Hrest.
  assert (forall negative,
             parse_exp_digits negative
               (uint_to_string (N.to_uint (Z.to_N (Z.abs e))) ++ rest)
             = Some (if negative then (- Z.abs e)%Z else Z.abs e, rest)) as Hd.
  { intros negative. unfold parse_exp_digits.
    rewrite (parse_digits_uint _ _ (number_ends_digit _ Hrest)).
    rewrite DecimalN.Unsigned.of_to, Z2N.id by apply Z.abs_nonneg.
    destruct (N.to_uint (Z.to_N (Z.abs e))) eqn:E; try reflexivity.
    exfalso. destruct (Z.to_N (Z.abs e)); simpl in E; [discriminate|].
    now apply (DecimalPos.Unsigned.to_uint_nonnil p). }
  destruct (0 <? e)%Z eqn:He.
  - apply Z.ltb_lt in He.
    change (parse_exp ("e" ++ "+" ++ ?x)) with (parse_exp_digits false x).
    rewrite Hd. do 2 f_equal. lia.
  - apply Z.ltb_ge in He.
    change (parse_exp ("e" ++ "-" ++ ?x)) with (parse_exp_digits true x).
    rewrite Hd. do 2 f_equal. lia.
Qed.

Lemma parse_unsigned_finite (negative : bool) (ds : string) (n : Z) (rest : string) :
  canonical ds = true -> in_range ds n = true -> number_ends rest = true ->
  exists body,
    Number_toString (Finite negative ds n)
      = (if negative then "-" else "") ++ body /\
    (exists c t, body = String c t /\ is_digit c = true) /\
    parse_unsigned negative (body ++ rest) = Some (VNum (Finite negative ds n), rest).
Proof.
  intros Hc Hr Hrest.
  pose proof (number_ends_digit rest Hrest) as Hnd.
  destruct (canonical_inv ds Hc) as [Hall [Ht [d [more [Eds Hd]]]]].
  assert (is_digit d = true) as Hdd
    by (rewrite Eds in Hall; simpl in Hall; now apply andb_true_iff in Hall).
  assert (all_digits more = true) as Hmore
    by (rewrite Eds in Hall; simpl in Hall; now apply andb_true_iff in Hall).
  unfold Number_toString.
  eexists. split; [reflexivity|].
  set (k := Z.of_nat (String.length ds)).
  destruct ((k <=? n)%Z && (n <=? 21)%Z) eqn:B1.
  { (* plain digits, zeros appended *)
    apply andb_true_iff in B1. destruct B1 as [B1 _]. apply Z.leb_le in B1.
    split; [rewrite Eds; simpl; eauto|].
    unfold parse_unsigned.
    rewrite (parse_int_digits (ds ++ zeros (Z.to_nat (n - k))) rest d
               (more ++ zeros (Z.to_nat (n - k))));
      [ | now rewrite Eds
        | now rewrite all_digits_app, Hall, all_digits_zeros
        | assumption | assumption ].
    rewrite (parse_frac_none rest Hrest), (parse_exp_none rest Hrest).
    rewrite (decimal_canonical negative _ "" ds 0 (Z.to_nat (n - k)) 0 n Hc Hr);
      [ reflexivity
      | now rewrite append_nil_r
      | rewrite length_append, length_zeros; unfold k in *; lia ]. }
  destruct ((0 <? n)%Z && (n <=? 21)%Z) eqn:B2.
  { (* a point inside the digits *)
    apply andb_true_iff in B2. destruct B2 as [B2 B2']. apply Z.ltb_lt in B2.
    apply Z.leb_le in B2'.
    assert (n < k)%Z as Hnk.
    { apply andb_false_iff in B1. destruct B1 as [B1|B1];
        [apply Z.leb_gt in B1; lia|apply Z.leb_gt in B1; lia]. }
    pose proof (split_at_app (Z.to_nat n) ds) as Hab.
    pose proof (split_at_length (Z.to_nat n) ds ltac:(unfold k in Hnk; lia)) as Hla.
    destruct (split_at (Z.to_nat n) ds) as [a b] eqn:Esp. simpl in Hab, Hla.
    assert (all_digits a = true /\ all_digits b = true) as [Ha Hb].
    { rewrite <- Hab, all_digits_app in Hall. now apply andb_true_iff in Hall. }
    destruct a as [|d' a']; [simpl in Hla; lia|].
    assert (d' = d) as -> by (rewrite Eds in Hab; simpl in Hab; congruence).
    assert (b <> "") as Hbne.
    { intros ->. rewrite append_nil_r in Hab.
      unfold k in Hnk. rewrite <- Hab in Hnk.
      cbn [String.length] in Hnk, Hla. lia. }
    split; [simpl; eauto|].
    unfold parse_unsigned. rewrite !append_assoc.
    match goal with
    | |- context [parse_int (String d a' ++ ?r)] =>
        rewrite (parse_int_digits (String d a') r d a' eq_refl Ha Hd eq_refl)
    end.
    rewrite (parse_frac_point b rest Hb Hbne Hnd).
    rewrite (parse_exp_none rest Hrest).
    rewrite (decimal_canonical negative _ b ds 0 0 0 n Hc Hr);
      [ reflexivity | now rewrite append_nil_r, Hab | lia ]. }
  destruct ((-6 <? n)%Z && (n <=? 0)%Z) eqn:B3.
  { (* zeros between the point and the digits *)
    apply andb_true_iff in B3. destruct B3 as [_ B3]. apply Z.leb_le in B3.
    split; [simpl; eauto|].
    unfold parse_unsigned.
    change ("0." ++ ?x) with ("0" ++ "." ++ x). rewrite !append_assoc.
    change (parse_int ("0" ++ "." ++ ?x)) with (Some ("0", "." ++ x)).
    cbv iota beta. rewrite <- (append_assoc (zeros _) ds rest).
    rewrite (parse_frac_point (zeros (Z.to_nat (- n)) ++ ds) rest);
      [ | now rewrite all_digits_app, all_digits_zeros, Hall
        | rewrite Eds; destruct (zeros (Z.to_nat (- n))); discriminate
        | assumption ].
    rewrite (parse_exp_none rest Hrest).
    rewrite (decimal_canonical negative "0" _ ds (S (Z.to_nat (- n))) 0 0 n Hc Hr);
      [ reflexivity
      | now rewrite append_nil_r
      | simpl String.length; lia ]. }
  (* the exponent form *)
  cbv zeta. subst ds. destruct more as [|d2 more'].
  - split; [eauto|].
    unfold parse_unsigned.
    change (String d ("e" ++ ?x) ++ rest) with (String d "" ++ "e" ++ x ++ rest).
    match goal with
    | |- context [parse_int (String d "" ++ ?r)] =>
        rewrite (parse_int_digits (String d "") r d "" eq_refl Hall Hd eq_refl)
    end.
    change (parse_frac ("e" ++ ?x)) with (Some ("", "e" ++ x)). cbv iota beta.
    rewrite !append_assoc. rewrite (parse_exp_exponent (n - 1) rest Hrest).
    rewrite (decimal_canonical negative _ "" (String d "") 0 0 (n - 1) n Hc Hr);
      [ reflexivity | reflexivity | simpl String.length; lia ].
  - split; [eauto|].
    unfold parse_unsigned.
    change (String d ("." ++ ?m ++ "e" ++ ?x) ++ rest)
      with (String d "" ++ "." ++ (m ++ "e" ++ x) ++ rest).
    assert (all_digits (String d "") = true) as Hd1
      by (simpl; now rewrite Hdd).
    match goal with
    | |- context [parse_int (String d "" ++ ?r)] =>
        rewrite (parse_int_digits (String d "") r d "" eq_refl Hd1 Hd eq_refl)
    end.
    rewrite !append_assoc.
    match goal with
    | |- context [parse_frac ("." ++ String d2 more' ++ ?r)] =>
        rewrite (parse_frac_point (String d2 more') r Hmore
                   ltac:(discriminate) eq_refl)
    end.
    rewrite (parse_exp_exponent (n - 1) rest Hrest).
    rewrite (decimal_canonical negative _ (String d2 more') (String d (String d2 more'))
               0 0 (n - 1) n Hc Hr);
      [ reflexivity
      | now rewrite append_nil_r
      | simpl String.length; lia ].
Qed.

Lemma parse_number_toString (x : number) (rest : string) :
  number_exact x = true -> number_ends rest = true ->
  parse_number (JSON_number x ++ rest) = Some (VNum x, rest).
Proof.
  intros Hok Hrest.
  destruct x as [| |negative|negative ds n]; try discriminate Hok.
  - simpl. unfold parse_unsigned, parse_int.
    change (take_digits (String "0" rest))
      with (let (ds, r) := take_digits rest in (String "0" ds, r)).
    pose proof (take_digits_app "" rest eq_refl (number_ends_digit rest Hrest))
      as H0.
    change ("" ++ rest) with rest in H0. rewrite H0.
    cbv iota beta. change ("0" =? "0")%char with true. simpl andb. cbv iota.
    now rewrite (parse_frac_none rest Hrest), (parse_exp_none rest Hrest).
  - destruct (number_exact_inv _ _ _ Hok) as [Hcan Hr].
    destruct (parse_unsigned_finite negative ds n rest Hcan Hr Hrest)
      as [body [E [[c [t [Eb Hc]]] Hp]]].
    unfold JSON_number. rewrite E. destruct negative.
    + change (("-" ++ body) ++ rest) with (String "-" (body ++ rest)).
      exact Hp.
    + change (("" ++ body) ++ rest) with (body ++ rest).
      rewrite Eb in *. simpl append in *. unfold parse_number.
      replace (nat_of_ascii c =? 45)%nat with false; [exact Hp|].
      destruct c as [[] [] [] [] [] [] [] []]; try discriminate Hc; reflexivity.
Qed.

Lemma Number_toString_head (x : number) :
  number_exact x = true ->
  exists c t, JSON_number x = String c t /\
              (is_digit c = true \/ c = "-"%char).
Proof.
  intros Hok. destruct x as [| |negative|negative ds n]; try discriminate Hok.
  - exists "0"%char, "". split; [reflexivity|now left].
  - destruct (number_exact_inv _ _ _ Hok) as [Hcan Hr].
    destruct (parse_unsigned_finite negative ds n "" Hcan Hr eq_refl)
      as [body [E [[c [t [Eb Hc]]] _]]].
    unfold JSON_number. rewrite E, Eb. destruct negative; simpl; eauto.
Qed.

(** *** Unfolding the readers *)

Lemma parse_value_S (f : nat) (s : string) :
  parse_value (S f) s = value_step (parse_elements f) (parse_members f []) s.
Proof. reflexivity. Qed.

Lemma parse_elements_S (f : nat) (s : string) :
  parse_elements (S f) s = elements_step (parse_value f) (parse_elements f) s.
Proof. reflexivity. Qed.

Lemma parse_members_S (f : nat) (acc : list (string * value)) (s : string) :
  parse_members (S f) acc s = members_step (parse_value f) (parse_members f) acc s.
Proof. reflexivity. Qed.

Lemma parse_value_ws (f : nat) (pre X : string) :
  all_ws pre = true -> parse_value f (pre ++ X) = parse_value f X.
Proof.
  intros H. destruct f; [reflexivity|].
  rewrite !parse_value_S. unfold value_step. now rewrite (skip_ws_app pre X H).
Qed.

Lemma parse_elements_ws (f : nat) (pre X : string) :
  all_ws pre = true -> parse_elements f (pre ++ X) = parse_elements f X.
Proof.
  intros H. destruct f; [reflexivity|].
  rewrite !parse_elements_S. unfold elements_step. now rewrite parse_value_ws.
Qed.

Lemma parse_members_ws (f : nat) (acc : list (string * value)) (pre X : string) :
  all_ws pre = true -> parse_members f acc (pre ++ X) = parse_members f acc X.
Proof.
  intros H. destruct f; [reflexivity|].
  rewrite !parse_members_S. unfold members_step. now rewrite (skip_ws_app pre X H).
Qed.

(** *** The shape of the printed text *)

Lemma serialize_arr (indent : string) (items : list value) :
  serialize indent (VArr items) =
  match elems (indent ++ gap) items with
  | [] => Some "[]"
  | partial => Some ("[" ++ nl ++ (indent ++ gap)
                     ++ join ("," ++ nl ++ (indent ++ gap)) partial
                     ++ nl ++ indent ++ "]")
  end.
Proof. unfold elems. simpl. destruct (map _ items); reflexivity. Qed.

Lemma serialize_obj (indent : string) (props : list (string * value)) :
  serialize indent (VObj props) =
  match members (indent ++ gap) props with
  | [] => Some "{}"
  | partial => Some ("{" ++ nl ++ (indent ++ gap)
                     ++ join ("," ++ nl ++ (indent ++ gap)) partial
                     ++ nl ++ indent ++ "}")
  end.
Proof. unfold members. simpl. destruct (flat_map _ props); reflexivity. Qed.

Lemma value_step_number pe pm (c : ascii) (t : string) :
  is_digit c = true \/ c = "-"%char ->
  value_step pe pm (String c t) = parse_number (String c t).
Proof.
  intros [H| ->]; [|reflexivity].
  destruct c as [[] [] [] [] [] [] [] []]; try discriminate H; reflexivity.
Qed.

Lemma serialize_head (indent : string) (v : value) (s : string) :
  lossless v = true ->
  serialize indent v = Some s ->
  exists c t, s = String c t /\ is_ws c = false /\
              (nat_of_ascii c =? 93)%nat = false.
Proof.
  intros Hj. destruct v as [| |[]|n|str|items|props].
  - discriminate.
  - intros [= <-]. repeat eexists.
  - intros [= <-]. repeat eexists.
  - intros [= <-]. repeat eexists.
  - intros [= <-]. simpl.
    destruct (Number_toString_head n Hj) as [c [t [E H]]]. rewrite E.
    exists c, t. split; [reflexivity|].
    destruct H as [H| ->]; [|split; reflexivity].
    destruct c as [[] [] [] [] [] [] [] []]; try discriminate H; split; reflexivity.
  - intros [= <-]. repeat eexists.
  - rewrite serialize_arr. destruct (elems _ items); intros [= <-]; repeat eexists.
  - rewrite serialize_obj. destruct (members _ props); intros [= <-]; repeat eexists.
Qed.

Lemma assign_fresh {A : Type} (k : string) (a : A) (l : list (string * A)) :
  existsb (String.eqb k) (keys l) = false -> assign k a l = (l ++ [(k, a)])%list.
Proof.
  induction l as [|[k0 a0] l IH]; simpl; [reflexivity|].
  intros H. apply orb_false_iff in H. destruct H as [H1 H2].
  rewrite String.eqb_sym, H1. now rewrite IH.
Qed.

Lemma distinct_app_cons (acc : list string) (k : string) (l : list string) :
  distinct (acc ++ k :: l) = true ->
  existsb (String.eqb k) acc = false.
Proof.
  induction acc as [|a acc IH]; simpl; [reflexivity|].
  intros H. apply andb_true_iff in H. destruct H as [H1 H2].
  rewrite (IH H2), orb_false_r.
  apply negb_true_iff in H1.
  rewrite existsb_app in H1. apply orb_false_iff in H1. destruct H1 as [_ H1].
  simpl in H1. apply orb_false_iff in H1. destruct H1 as [H1 _].
  now rewrite String.eqb_sym.
Qed.

(** *** Elements and members *)

Lemma join_cons (sep x y : string) (l : list string) :
  join sep (x :: y :: l) = x ++ sep ++ join sep (y :: l).
Proof. reflexivity. Qed.

Lemma join_single (sep x : string) : join sep [x] = x.
Proof. reflexivity. Qed.

Lemma elems_cons (ind : string) (x : value) (xs : list value) (sx : string) :
  serialize ind x = Some sx -> elems ind (x :: xs) = sx :: elems ind xs.
Proof. intros E. unfold elems. simpl. now rewrite E. Qed.

Lemma members_cons (ind k : string) (x : value) (ps : list (string * value))
    (sx : string) :
  serialize ind x = Some sx ->
  members ind ((k, x) :: ps) = (quote k ++ ": " ++ sx) :: members ind ps.
Proof. intros E. unfold members. simpl. now rewrite E. Qed.

Lemma skip_ws_close (indent rest : string) (c : ascii) :
  all_ws indent = true -> is_ws c = false ->
  skip_ws (nl ++ indent ++ String c rest) = String c rest.
Proof.
  intros H Hc. rewrite skip_ws_nl_indent by assumption. simpl. now rewrite Hc.
Qed.

Lemma parse_elements_nl (f : nat) (ind X : string) :
  all_ws ind = true -> parse_elements f (nl ++ ind ++ X) = parse_elements f X.
Proof.
  intros H. rewrite <- append_assoc. apply parse_elements_ws.
  simpl. exact H.
Qed.

Lemma parse_members_nl (f : nat) (acc : list (string * value)) (ind X : string) :
  all_ws ind = true -> parse_members f acc (nl ++ ind ++ X) = parse_members f acc X.
Proof.
  intros H. rewrite <- append_assoc. apply parse_members_ws.
  simpl. exact H.
Qed.

Lemma elements_step_comma val els (s z : string) (x : value) :
  val s = Some (x, "," ++ z) ->
  elements_step val els s =
  match els z with
  | Some (vs, r) => Some (x :: vs, r)
  | None => None
  end.
Proof. intros E. unfold elements_step. rewrite E. reflexivity. Qed.

Lemma elements_step_close val els (s indent rest : string) (x : value) :
  all_ws indent = true ->
  val s = Some (x, nl ++ indent ++ "]" ++ rest) ->
  elements_step val els s = Some ([x], rest).
Proof.
  intros H E. unfold elements_step. rewrite E.
  change ("]" ++ rest) with (String "]" rest).
  now rewrite (skip_ws_close indent rest "]" H eq_refl).
Qed.

Lemma elements_roundtrip (items : list value) :
  Forall roundtrips items -> forallb lossless items = true -> items <> [] ->
  forall (ind indent rest : string) (fuel : nat),
    all_ws ind = true -> all_ws indent = true ->
    (list_sum (map (fun x => S (size x)) items) <= fuel)%nat ->
    parse_elements fuel
      (join ("," ++ nl ++ ind) (elems ind items) ++ nl ++ indent ++ "]" ++ rest)
    = Some (items, rest).
Proof.
  induction items as [|x xs IH]; [contradiction|].
  intros HF Hj _ ind indent rest fuel Hind Hindent Hfuel.
  inversion HF as [|? ? Hx Hxs]; subst.
  simpl in Hj. apply andb_true_iff in Hj. destruct Hj as [Hjx Hjxs].
  destruct fuel as [|f]; [simpl in Hfuel; lia|].
  simpl in Hfuel.
  rewrite parse_elements_S.
  destruct xs as [|y ys].
  - destruct (Hx Hjx ind (nl ++ indent ++ "]" ++ rest) f Hind eq_refl
                ltac:(lia)) as [sx [E1 E2]].
    rewrite (elems_cons ind x [] sx E1).
    change (elems ind []) with (@nil string). rewrite join_single.
    now apply (elements_step_close _ _ _ indent rest x).
  - destruct (Hx Hjx ind
                ("," ++ nl ++ ind ++ join ("," ++ nl ++ ind) (elems ind (y :: ys))
                   ++ nl ++ indent ++ "]" ++ rest) f Hind eq_refl
                ltac:(lia)) as [sx [E1 E2]].
    rewrite (elems_cons ind x (y :: ys) sx E1).
    assert (exists e es, elems ind (y :: ys) = e :: es) as [e [es Ees]]
      by (unfold elems; simpl; eauto).
    rewrite Ees in *. rewrite join_cons.
    rewrite !append_assoc.
    rewrite (elements_step_comma _ _ _ _ x E2).
    rewrite parse_elements_nl by assumption.
    rewrite <- Ees.
    rewrite (IH Hxs Hjxs ltac:(discriminate) ind indent rest f Hind Hindent
               ltac:(simpl in *; lia)).
    reflexivity.
Qed.

Lemma members_step_member val mem (acc : list (string * value))
    (k X : string) :
  members_step val mem acc (quote k ++ ": " ++ X) =
  match val (" " ++ X) with
  | None => None
  | Some (v, r3) =>
      match skip_ws r3 with
      | EmptyString => None
      | String c r4 =>
          if (nat_of_ascii c =? 44)%nat then mem (assign k v acc) r4
          else if (nat_of_ascii c =? 125)%nat then Some (assign k v acc, r4)
          else None
      end
  end.
Proof.
  unfold members_step. rewrite quote_unfold.
  change (skip_ws (String "034"%char ?z)) with (String "034"%char z).
  cbv iota beta. change (nat_of_ascii "034" =? 34)%nat with true. cbv iota.
  rewrite parse_chars_quote_body. reflexivity.
Qed.

Lemma members_roundtrip (props : list (string * value)) :
  Forall (fun p => roundtrips (snd p)) props ->
  forallb (fun p => lossless (snd p)) props = true -> props <> [] ->
  forall (acc : list (string * value)) (ind indent rest : string) (fuel : nat),
    all_ws ind = true -> all_ws indent = true ->
    distinct (keys (acc ++ props)%list) = true ->
    (list_sum (map (fun p => S (size (snd p))) props) <= fuel)%nat ->
    parse_members fuel acc
      (join ("," ++ nl ++ ind) (members ind props) ++ nl ++ indent ++ "}" ++ rest)
    = Some ((acc ++ props)%list, rest).
Proof.
  induction props as [|[k x] ps IH]; [contradiction|].
  intros HF Hj _ acc ind indent rest fuel Hind Hindent Hd Hfuel.
  inversion HF as [|? ? Hx Hxs]; subst. simpl in Hx.
  simpl in Hj. apply andb_true_iff in Hj. destruct Hj as [Hjx Hjxs].
  destruct fuel as [|f]; [simpl in Hfuel; lia|].
  simpl in Hfuel.
  assert (assign k x acc = (acc ++ [(k, x)])%list) as Hassign.
  { apply assign_fresh. unfold keys in Hd. rewrite map_app in Hd. simpl in Hd.
    now apply (distinct_app_cons _ _ _ Hd). }
  rewrite parse_members_S.
  destruct ps as [|[k' y] ps'].
  - destruct (Hx Hjx ind (nl ++ indent ++ "}" ++ rest) f Hind eq_refl
                ltac:(lia)) as [sx [E1 E2]].
    rewrite (members_cons ind k x [] sx E1).
    change (members ind []) with (@nil string). rewrite join_single.
    rewrite !append_assoc. rewrite members_step_member.
    rewrite (parse_value_ws f " " _ eq_refl), E2.
    change ("}" ++ rest) with (String "}" rest).
    rewrite (skip_ws_close indent rest "}" Hindent eq_refl).
    rewrite Hassign. reflexivity.
  - assert (exists sy, serialize ind y = Some sy) as [sy Ey].
    { inversion Hxs as [|? ? Hy _]; subst. simpl in Hy.
      simpl in Hjxs. apply andb_true_iff in Hjxs.
      destruct (Hy (proj1 Hjxs) ind "" (size y) Hind eq_refl (le_n _))
        as [sy [Ey _]].
      now exists sy. }
    pose proof (members_cons ind k' y ps' sy Ey) as Ems.
    destruct (Hx Hjx ind
                ("," ++ nl ++ ind
                   ++ join ("," ++ nl ++ ind) (members ind ((k', y) :: ps'))
                   ++ nl ++ indent ++ "}" ++ rest) f Hind eq_refl
                ltac:(lia)) as [sx [E1 E2]].
    rewrite (members_cons ind k x ((k', y) :: ps') sx E1).
    rewrite Ems in *. rewrite join_cons.
    rewrite !append_assoc. rewrite members_step_member.
    rewrite (parse_value_ws f " " _ eq_refl), E2.
    change (skip_ws ("," ++ ?z)) with (String "," z).
    cbv iota beta. change (nat_of_ascii "," =? 44)%nat with true. cbv iota.
    rewrite parse_members_nl by assumption.
    rewrite <- Ems. rewrite Hassign.
    rewrite (IH Hxs Hjxs ltac:(discriminate) (acc ++ [(k, x)])%list
               ind indent rest f Hind Hindent).
    + now rewrite <- app_assoc.
    + now rewrite <- app_assoc.
    + simpl in *; lia.
Qed.

(** *** Every JSON value reads back from its printed text *)

Lemma join_head (sep : string) (c : ascii) (t : string) (l : list string)
    (T : string) :
  exists u, join sep (String c t :: l) ++ T = String c u.
Proof. destruct l; simpl; eexists; reflexivity. Qed.

Lemma value_step_array pe pm (ind X : string) (c : ascii) (u : string) :
  all_ws ind = true -> X = String c u ->
  is_ws c = false -> (nat_of_ascii c =? 93)%nat = false ->
  value_step pe pm ("[" ++ nl ++ ind ++ X) =
  match pe (nl ++ ind ++ X) with
  | Some (items, r) => Some (VArr items, r)
  | None => None
  end.
Proof.
  intros Hind HX Hws H93. unfold value_step.
  change (skip_ws ("[" ++ ?z)) with (String "[" z).
  cbv iota beta.
  change (nat_of_ascii "[" =? 110)%nat with false.
  change (nat_of_ascii "[" =? 116)%nat with false.
  change (nat_of_ascii "[" =? 102)%nat with false.
  change (nat_of_ascii "[" =? 34)%nat with false.
  change (nat_of_ascii "[" =? 91)%nat with true. cbv iota.
  rewrite (skip_ws_nl_indent _ _ Hind).
  rewrite HX at 1. simpl skip_ws. rewrite Hws, H93. reflexivity.
Qed.

Lemma value_step_object pe pm (ind X : string) (u : string) :
  all_ws ind = true -> X = String "034"%char u ->
  value_step pe pm ("{" ++ nl ++ ind ++ X) =
  match pm (nl ++ ind ++ X) with
  | Some (props, r) => Some (VObj props, r)
  | None => None
  end.
Proof.
  intros Hind HX. unfold value_step.
  change (skip_ws ("{" ++ ?z)) with (String "{" z).
  cbv iota beta.
  change (nat_of_ascii "{" =? 110)%nat with false.
  change (nat_of_ascii "{" =? 116)%nat with false.
  change (nat_of_ascii "{" =? 102)%nat with false.
  change (nat_of_ascii "{" =? 34)%nat with false.
  change (nat_of_ascii "{" =? 91)%nat with false.
  change (nat_of_ascii "{" =? 123)%nat with true. cbv iota.
  rewrite (skip_ws_nl_indent _ _ Hind).
  rewrite HX at 1. reflexivity.
Qed.

Lemma parse_value_roundtrip (v : value) : roundtrips v.
Proof.
  induction v as [| |b|n|str|items IH|props IH] using value_ind;
    intros Hj indent rest fuel Hind Hrest Hfuel.
  - discriminate.
  - destruct fuel as [|f]; [simpl in Hfuel; lia|].
    exists "null". split; reflexivity.
  - destruct fuel as [|f]; [simpl in Hfuel; lia|].
    destruct b; eexists; split; reflexivity.
  - destruct fuel as [|f]; [simpl in Hfuel; lia|].
    exists (JSON_number n). split; [reflexivity|].
    rewrite parse_value_S.
    destruct (Number_toString_head n Hj) as [c [t [E H]]].
    assert (skip_ws (JSON_number n ++ rest) = JSON_number n ++ rest) as Hs.
    { rewrite E. simpl.
      destruct H as [H| ->]; [|reflexivity].
      destruct c as [[] [] [] [] [] [] [] []]; try discriminate H; reflexivity. }
    unfold value_step at 1. rewrite Hs.
    pose proof (value_step_number (parse_elements f) (parse_members f [])
                  c (t ++ rest) H) as Hn.
    unfold value_step in Hn. simpl skip_ws in Hn.
    assert (is_ws c = false) as Hws.
    { destruct H as [H| ->]; [|reflexivity].
      destruct c as [[] [] [] [] [] [] [] []]; try discriminate H; reflexivity. }
    rewrite Hws in Hn.
    rewrite E at 1. simpl append at 1.
    etransitivity; [exact Hn|].
    change (String c (t ++ rest)) with (String c t ++ rest).
    rewrite <- E. now apply parse_number_toString.
  - destruct fuel as [|f]; [simpl in Hfuel; lia|].
    exists (quote str). split; [reflexivity|].
    rewrite parse_value_S. unfold value_step. rewrite quote_unfold.
    change (skip_ws (String "034"%char ?z)) with (String "034"%char z).
    cbv iota beta.
    change (nat_of_ascii "034" =? 110)%nat with false.
    change (nat_of_ascii "034" =? 116)%nat with false.
    change (nat_of_ascii "034" =? 102)%nat with false.
    change (nat_of_ascii "034" =? 34)%nat with true. cbv iota.
    now rewrite parse_chars_quote_body.
  - destruct fuel as [|f]; [simpl in Hfuel; lia|].
    simpl in Hj, Hfuel. rewrite serialize_arr.
    destruct items as [|x xs].
    + exists "[]". split; reflexivity.
    + inversion IH as [|? ? Hx _]; subst.
      pose proof Hj as Hj'. simpl in Hj'. apply andb_true_iff in Hj'.
      assert (all_ws (indent ++ gap) = true) as Hind'
        by (apply all_ws_app; [assumption|reflexivity]).
      remember (indent ++ gap) as ind' eqn:Eind'. clear Eind'.
      destruct (Hx (proj1 Hj') ind' "" (size x) Hind' eq_refl (le_n _))
        as [sx [Ex _]].
      pose proof (elems_cons ind' x xs sx Ex) as Ee.
      destruct (serialize_head _ _ _ (proj1 Hj') Ex) as [c [t [-> [Hws H93]]]].
      pose proof (elements_roundtrip (x :: xs) IH Hj ltac:(discriminate)
                    ind' indent rest f Hind' Hind
                    ltac:(simpl in Hfuel |- *; lia)) as Hel.
      rewrite Ee in *.
      eexists. split; [reflexivity|].
      rewrite parse_value_S. rewrite !append_assoc.
      destruct (join_head ("," ++ nl ++ ind') c t
                  (elems ind' xs) (nl ++ indent ++ "]" ++ rest))
        as [u Hu].
      rewrite (value_step_array _ _ _ _ c u Hind' Hu Hws H93).
      rewrite parse_elements_nl by assumption.
      rewrite Hel. reflexivity.
  - destruct fuel as [|f]; [simpl in Hfuel; lia|].
    simpl in Hj, Hfuel. rewrite serialize_obj.
    apply andb_true_iff in Hj. destruct Hj as [Hj Hd].
    destruct props as [|[k x] ps].
    + exists "{}". split; reflexivity.
    + inversion IH as [|? ? Hx _]; subst. simpl in Hx.
      pose proof Hj as Hj'. simpl in Hj'. apply andb_true_iff in Hj'.
      assert (all_ws (indent ++ gap) = true) as Hind'
        by (apply all_ws_app; [assumption|reflexivity]).
      remember (indent ++ gap) as ind' eqn:Eind'. clear Eind'.
      destruct (Hx (proj1 Hj') ind' "" (size x) Hind' eq_refl (le_n _))
        as [sx [Ex _]].
      pose proof (members_cons ind' k x ps sx Ex) as Ee.
      pose proof (members_roundtrip ((k, x) :: ps) IH Hj ltac:(discriminate)
                    [] ind' indent rest f Hind' Hind Hd
                    ltac:(simpl in Hfuel |- *; lia)) as Hel.
      rewrite Ee in *.
      eexists. split; [reflexivity|].
      rewrite parse_value_S. rewrite !append_assoc.
      rewrite quote_unfold in Hel |- *.
      destruct (join_head ("," ++ nl ++ ind') "034"%char
                  (quote_body k ++ dq ++ ": " ++ sx)
                  (members ind' ps) (nl ++ indent ++ "}" ++ rest))
        as [u Hu].
      rewrite (value_step_object _ _ _ _ u Hind' Hu).
      rewrite parse_members_nl by assumption.
      simpl app in Hel. rewrite Hel. reflexivity.
Qed.

(** *** The text is long enough to serve as fuel *)

Lemma Some_inj {A : Type} (a b : A) : Some a = Some b -> a = b.
Proof. now intros [= ->]. Qed.

Lemma lossless_serializes (v : value) (indent : string) :
  lossless v = true -> exists s, serialize indent v = Some s.
Proof.
  destruct v as [| |[]|n|str|items|props]; intros H; try discriminate;
    try (eexists; reflexivity).
  - rewrite serialize_arr. destruct (elems _ _); eexists; reflexivity.
  - rewrite serialize_obj. destruct (members _ _); eexists; reflexivity.
Qed.

Lemma elems_fit (sep ind : string) (items : list value) :
  Forall fits items -> forallb lossless items = true ->
  (1 <= String.length sep)%nat ->
  (list_sum (map (fun x => S (size x)) items)
   <= String.length (join sep (elems ind items)) + 1)%nat.
Proof.
  intros HF Hj Hsep. induction items as [|x xs IH]; [simpl; lia|].
  inversion HF as [|? ? Hx Hxs]; subst.
  simpl in Hj. apply andb_true_iff in Hj. destruct Hj as [Hjx Hjxs].
  specialize (IH Hxs Hjxs).
  destruct (lossless_serializes x ind Hjx) as [sx Ex].
  specialize (Hx Hjx ind sx Ex).
  rewrite (elems_cons ind x xs sx Ex).
  destruct xs as [|y ys].
  - change (elems ind []) with (@nil string). rewrite join_single.
    simpl. lia.
  - assert (exists e es, elems ind (y :: ys) = e :: es) as [e [es Ees]]
      by (unfold elems; simpl; eauto).
    rewrite Ees in *. rewrite join_cons, !length_append.
    simpl list_sum in *. simpl map in *. simpl list_sum in *. lia.
Qed.

Lemma members_fit (sep ind : string) (props : list (string * value)) :
  Forall (fun p => fits (snd p)) props ->
  forallb (fun p => lossless (snd p)) props = true ->
  (1 <= String.length sep)%nat ->
  (list_sum (map (fun p => S (size (snd p))) props)
   <= String.length (join sep (members ind props)) + 1)%nat.
Proof.
  intros HF Hj Hsep. induction props as [|[k x] ps IH]; [simpl; lia|].
  inversion HF as [|? ? Hx Hxs]; subst. simpl in Hx.
  simpl in Hj. apply andb_true_iff in Hj. destruct Hj as [Hjx Hjxs].
  specialize (IH Hxs Hjxs).
  destruct (lossless_serializes x ind Hjx) as [sx Ex].
  specialize (Hx Hjx ind sx Ex).
  rewrite (members_cons ind k x ps sx Ex).
  destruct ps as [|[k' y] ps'].
  - change (members ind []) with (@nil string). rewrite join_single.
    rewrite !length_append. simpl. lia.
  - destruct (lossless_serializes y ind) as [sy Ey].
    { simpl in Hjxs. apply andb_true_iff in Hjxs. apply Hjxs. }
    rewrite (members_cons ind k' y ps' sy Ey) in *.
    rewrite join_cons, !length_append.
    simpl list_sum in *. simpl map in *. simpl list_sum in *. simpl snd in *.
    lia.
Qed.

Lemma size_fits (v : value) : fits v.
Proof.
  induction v as [| |b|n|str|items IH|props IH] using value_ind;
    intros Hj indent s Hs.
  - discriminate.
  - injection Hs as <-. simpl. lia.
  - destruct b; injection Hs as <-; simpl; lia.
  - injection Hs as <-.
    destruct (Number_toString_head n Hj) as [c [t [-> _]]]. simpl. lia.
  - injection Hs as <-. unfold quote. simpl. lia.
  - rewrite serialize_arr in Hs. simpl in Hj.
    pose proof (elems_fit ("," ++ nl ++ indent ++ gap) (indent ++ gap) items
                  IH Hj ltac:(simpl; lia)) as Hfit.
    destruct (elems (indent ++ gap) items) as [|e es] eqn:Ee.
    + injection Hs as <-. simpl in *. lia.
    + apply Some_inj in Hs. subst s. rewrite !length_append. simpl size.
      simpl String.length at 1. change (String.length "]") with 1%nat. lia.
  - rewrite serialize_obj in Hs. simpl in Hj.
    apply andb_true_iff in Hj. destruct Hj as [Hj _].
    pose proof (members_fit ("," ++ nl ++ indent ++ gap) (indent ++ gap) props
                  IH Hj ltac:(simpl; lia)) as Hfit.
    destruct (members (indent ++ gap) props) as [|e es] eqn:Ee.
    + injection Hs as <-. simpl in *. lia.
    + apply Some_inj in Hs. subst s. rewrite !length_append. simpl size.
      simpl String.length at 1. change (String.length "}") with 1%nat. lia.
Qed.

(** [JSON.parse (JSON.stringify (v, null, 2))] is [v], for every value [v]
    that [JSON.parse] can produce. *)
Lemma JSON_roundtrip (v : value) :
  lossless v = true ->
  exists text, JSON_stringify v = Some text /\ JSON_parse text = Some v.
Proof.
  intros Hj. unfold JSON_stringify.
  destruct (lossless_serializes v "" Hj) as [s Es].
  destruct (parse_value_roundtrip v Hj "" "" (String.length s) eq_refl eq_refl
              (size_fits v Hj "" s Es)) as [s' [Es' Ep]].
  assert (s' = s) as -> by congruence.
  exists s. split; [assumption|].
  unfold JSON_parse. rewrite append_nil_r in Ep. now rewrite Ep.
Qed.

(** ** Handlers, their parameter objects and their requests *)

Lemma normalized_error_props (e u r : value) :
  normalized_error e u r =
  VObj ([("error", e)]
        ++ (if truthy u then [("upgrade", u)] else [])
        ++ (if truthy r then [("retry_after_seconds", r)] else []))%list.
Proof.
  unfold normalized_error. destruct (truthy u), (truthy r); reflexivity.
Qed.

(** Without a parameter object the URL has no search parameter. *)
Lemma request_url_no_params (endpoint : string) :
  URL_toString (request_url endpoint None) = BASE_URL ++ "/" ++ endpoint.
Proof. reflexivity. Qed.

Lemma handler_log (c : ToolCall) (w : World) (key : string) :
  TRADEKIX_API_KEY w = Some key -> key <> "" ->
  snd (run (handler c) w) = [call_request c key].
Proof.
  intros Hk Hne. unfold run. rewrite (handler_present w [] c key Hk Hne).
  cbv zeta. destruct (network w [] _) as [|[[data|]]]; reflexivity.
Qed.


Lemma lookup_assign_other {A : Type} (k k' : string) (a : A)
    (l : list (string * A)) :
  k <> k' -> lookup k' (assign k a l) = lookup k' l.
Proof.
  intros Hne. induction l as [|[k0 a0] l IH]; simpl.
  - destruct (String.eqb_spec k k'); [contradiction|reflexivity].
  - destruct (String.eqb_spec k0 k) as [->|Hne0]; simpl.
    + destruct (String.eqb_spec k k'); [contradiction|reflexivity].
    + now rewrite IH.
Qed.

Lemma lookup_assign_if_other (k k' : string) (x : option string) (ps : Params) :
  k <> k' -> lookup k' (assign_if k x ps) = lookup k' ps.
Proof.
  intros Hne. unfold assign_if. destruct x as [s|]; [|reflexivity].
  destruct (s =? ""); [reflexivity|]. now apply lookup_assign_other.
Qed.

Lemma keys_assign {A : Type} (k k' : string) (a : A) (l : list (string * A)) :
  In k' (keys (assign k a l)) <-> k' = k \/ In k' (keys l).
Proof.
  induction l as [|[k0 a0] l IH]; simpl.
  - intuition.
  - destruct (String.eqb_spec k0 k) as [->|Hne]; simpl.
    + intuition.
    + rewrite IH. intuition.
Qed.

Lemma assign_NoDup {A : Type} (k : string) (a : A) (l : list (string * A)) :
  NoDup (keys l) -> NoDup (keys (assign k a l)).
Proof.
  induction l as [|[k0 a0] l IH]; simpl; intros Hnd.
  - constructor; [intros []|constructor].
  - inversion Hnd as [|? ? Hnotin Hnd']; subst.
    destruct (String.eqb_spec k0 k) as [->|Hne]; simpl.
    + now constructor.
    + constructor; [|now apply IH].
      intros Hin. apply keys_assign in Hin. destruct Hin; [contradiction|].
      now apply Hnotin.
Qed.

Lemma assign_if_NoDup (k : string) (x : option string) (ps : Params) :
  NoDup (keys ps) -> NoDup (keys (assign_if k x ps)).
Proof.
  intros H. unfold assign_if. destruct x as [s|]; [|assumption].
  destruct (s =? ""); [assumption|now apply assign_NoDup].
Qed.

Lemma assign_defined_NoDup (k : string) (x : option bool) (ps : Params) :
  NoDup (keys ps) -> NoDup (keys (assign_defined k x ps)).
Proof.
  intros H. unfold assign_defined. destruct x; [now apply assign_NoDup|assumption].
Qed.

(** The parameter object of every handler has distinct keys. *)
Lemma call_params_NoDup (c : ToolCall) (ps : Params) :
  call_params c = Some ps -> NoDup (keys ps).
Proof.
  assert (NoDup (keys (@nil (string * param)))) as Hnil by constructor.
  destruct c; simpl; try discriminate; intros [= <-];
    unfold prices_params, indices_params, forex_params, economic_events_params,
      congressional_trades_params, sentiment_params, tweets_params;
    repeat first [apply assign_if_NoDup | apply assign_defined_NoDup];
    try exact Hnil.
  constructor; [intros []|constructor].
Qed.


Lemma not_forwarded_in_url (c : ToolCall) (ps : Params) (k : string) :
  call_params c = Some ps ->
  absent_or_empty (lookup k ps) = true ->
  ~ In k (keys (searchParams (request_url (call_endpoint c) (call_params c)))).
Proof.
  intros Hc Hl. rewrite Hc.
  apply request_url_omits; [now apply (call_params_NoDup c)|assumption].
Qed.


Lemma handler_result_shape (c : ToolCall) (w : World) (tr : ToolResult) :
  fst (run (handler c) w) = inr tr -> exists data, tr = text_result data.
Proof.
  unfold run. rewrite handler_unfold. unfold bind.
  destruct (makeRequest (call_endpoint c) (call_params c) w []) as [[e|data] l];
    simpl; [discriminate|].
  intros [= <-]. now exists data.
Qed.

Lemma field_normalized_error (e u r : value) :
  field (normalized_error e u r) "error" = e.
Proof. rewrite normalized_error_props. reflexivity. Qed.

Lemma prices_symbol_lookup (symbol : string) (from to limit : option string) :
  lookup "symbol" (prices_params symbol from to limit) = Some (PString symbol).
Proof.
  unfold prices_params. rewrite !lookup_assign_if_other by discriminate.
  reflexivity.
Qed.

(** ** The tool catalog *)

(** Every endpoint of the catalog is a plain path. *)
Lemma call_endpoint_plain (c : ToolCall) : plain_path (call_endpoint c) = true.
Proof. destruct c; reflexivity. Qed.

(** The congressional trades tool called with [{symbol: NVDA, party:
    Democrat}]. *)
Example congressional_trades_url :
  req_url (call_request
             (call_congressional_trades (Some "NVDA") None (Some Democrat)
                None None None) sample_key)
  = "https://tradekix-alpha.vercel.app/api/v1/trades/congressional?symbol=NVDA&party=Democrat".
Proof. reflexivity. Qed.

(** The tools with optional parameters only, called with none. *)
Example no_arguments_no_query :
  map (fun c => req_url (call_request c sample_key))
    [call_market_overview; call_indices None None; call_forex None;
     call_earnings; call_economic_events None None None None;
     call_congressional_trades None None None None None None;
     call_sentiment None None; call_tweets None None None None; call_news]
  = ["https://tradekix-alpha.vercel.app/api/v1/market/overview";
     "https://tradekix-alpha.vercel.app/api/v1/market/indices";
     "https://tradekix-alpha.vercel.app/api/v1/market/forex";
     "https://tradekix-alpha.vercel.app/api/v1/events/earnings";
     "https://tradekix-alpha.vercel.app/api/v1/events/economic";
     "https://tradekix-alpha.vercel.app/api/v1/trades/congressional";
     "https://tradekix-alpha.vercel.app/api/v1/social/sentiment";
     "https://tradekix-alpha.vercel.app/api/v1/social/tweets";
     "https://tradekix-alpha.vercel.app/api/v1/news/summary"].
Proof. reflexivity. Qed.

(** ** The claims *)

(** C1 (as amended) -- When the body is a JSON object whose [success] is
    [false], [makeRequest] returns, without throwing, the object made of the
    envelope's [error] field, then [upgrade] when the envelope's [upgrade]
    is truthy, then [retry_after_seconds] when the envelope's
    [retry_after_seconds] is truthy, and of nothing else; exactly one
    request has been issued.  A hint that is present with a falsy value
    ([0], the empty string, [false], [null]) is left out. *)
Theorem business_error_normalized
    (endpoint : string) (params : option Params) (w : World)
    (key : string) (props : list (string * value)) :
  TRADEKIX_API_KEY w = Some key -> key <> "" ->
  network w [] (outbound_request endpoint params key)
    = Fulfilled (mkResponse (Some (VObj props))) ->
  lookup "success" props = Some (VBool false) ->
  run (makeRequest endpoint params) w =
  (inr (VObj ([("error", field (VObj props) "error")]
              ++ (if truthy (field (VObj props) "upgrade")
                  then [("upgrade", field (VObj props) "upgrade")] else [])
              ++ (if truthy (field (VObj props) "retry_after_seconds")
                  then [("retry_after_seconds",
                         field (VObj props) "retry_after_seconds")]
                  else []))%list),
   [outbound_request endpoint params key]).
Proof.
  intros Hk Hne Hnet Hs. unfold run.
  rewrite (makeRequest_present w [] endpoint params key Hk Hne).
  cbv zeta. rewrite Hnet. simpl app.
  unfold envelope_outcome.
  replace (truthy (field (VObj props) "success")) with false
    by (unfold field, get; now rewrite Hs).
  now rewrite normalized_error_props.
Qed.

(** The envelope [{success: false, error: "rate limited",
    retry_after_seconds: 30}] gives [{error: "rate limited",
    retry_after_seconds: 30}], with no [upgrade] key. *)
Lemma business_error_normalized_witness :
  run (makeRequest "market/overview" None)
      (sample_world (Some sample_key) (Some rate_limited)) =
  (inr (VObj [("error", VStr "rate limited");
              ("retry_after_seconds", VNum (integer 30))]),
   [outbound_request "market/overview" None sample_key]).
Proof.
  apply (business_error_normalized "market/overview" None
           (sample_world (Some sample_key) (Some rate_limited)) sample_key
           [("success", VBool false); ("error", VStr "rate limited");
            ("retry_after_seconds", VNum (integer 30))]).
  - reflexivity.
  - discriminate.
  - reflexivity.
  - reflexivity.
Defined.

(** C1, counterexample -- the envelope [{success: false, error: "rate
    limited", retry_after_seconds: 0}] has a [retry_after_seconds] field,
    and the returned object has none. *)
Lemma present_falsy_hint_dropped :
  lookup "success"
    [("success", VBool false); ("error", VStr "rate limited");
     ("retry_after_seconds", VNum (integer 0))] = Some (VBool false) /\
  lookup "retry_after_seconds"
    [("success", VBool false); ("error", VStr "rate limited");
     ("retry_after_seconds", VNum (integer 0))] = Some (VNum (integer 0)) /\
  run (makeRequest "market/overview" None)
      (sample_world (Some sample_key) (Some rate_limited_retry_now)) =
  (inr (VObj [("error", VStr "rate limited")]),
   [outbound_request "market/overview" None sample_key]) /\
  lookup "retry_after_seconds" [("error", VStr "rate limited")] = None.
Proof. repeat split. Qed.

(** The text a handler renders for the rate-limit envelope. *)
Example rate_limited_text :
  fst (run (handler call_market_overview)
         (sample_world (Some sample_key) (Some rate_limited))) =
  inr (text_result
         (VObj [("error", VStr "rate limited");
                ("retry_after_seconds", VNum (integer 30))]))
  /\ JSON_stringify
       (VObj [("error", VStr "rate limited");
              ("retry_after_seconds", VNum (integer 30))]) =
     Some ("{" ++ nl ++
           "  " ++ dq ++ "error" ++ dq ++ ": " ++ dq ++ "rate limited" ++ dq ++ "," ++ nl ++
           "  " ++ dq ++ "retry_after_seconds" ++ dq ++ ": 30" ++ nl ++
           "}").
Proof. split; reflexivity. Qed.

(** C2 (as amended) -- A handler catches nothing.  It returns a ToolResult
    when a credential is configured, the fetch is fulfilled and the body
    parses to a JSON value other than [null]; an upstream business error
    (falsy [success]) is then rendered as a ToolResult whose text is the
    normalized error object.  A missing credential ([Error]), a rejected
    fetch, a body that is not JSON ([SyntaxError]) and a [null] body
    ([TypeError]) leave the handler as exceptions. *)
Theorem handler_outcome (c : ToolCall) (w : World) :
  fst (run (handler c) w) =
  match TRADEKIX_API_KEY w with
  | None => inl (Error missing_key_message)
  | Some key =>
      if key =? "" then inl (Error missing_key_message)
      else
        match network w [] (call_request c key) with
        | Rejected => inl FetchFailed
        | Fulfilled (mkResponse None) => inl SyntaxError
        | Fulfilled (mkResponse (Some VNull))
        | Fulfilled (mkResponse (Some VUndefined)) => inl TypeError
        | Fulfilled (mkResponse (Some data)) =>
            inr (text_result
                   (if truthy (field data "success") then field data "data"
                    else normalized_error (field data "error")
                           (field data "upgrade")
                           (field data "retry_after_seconds")))
        end
  end.
Proof.
  unfold run. destruct (TRADEKIX_API_KEY w) as [key|] eqn:Hk.
  - destruct (String.eqb_spec key "") as [->|Hne].
    + rewrite handler_missing; [reflexivity|now rewrite Hk].
    + rewrite (handler_present w [] c key Hk Hne). cbv zeta.
      destruct (network w [] _) as [|[[data|]]]; try reflexivity.
      destruct data; simpl; try reflexivity;
        match goal with
        | |- context [truthy ?x] => destruct (truthy x); reflexivity
        end.
  - rewrite handler_missing; [reflexivity|now rewrite Hk].
Qed.

(** C2, counterexample -- with a credential configured and the upstream
    unreachable, the handler ends in the fetch's exception: no ToolResult,
    nothing caught. *)
Lemma fetch_failure_propagates :
  key_missing (TRADEKIX_API_KEY unreachable_world) = false /\
  run (handler call_market_overview) unreachable_world =
  (inl FetchFailed, [call_request call_market_overview sample_key]) /\
  ~ (exists tr : ToolResult,
        fst (run (handler call_market_overview) unreachable_world) = inr tr).
Proof.
  split; [reflexivity|]. split; [reflexivity|].
  intros [tr H]. discriminate H.
Qed.

(** C3 -- With no credential configured ([TRADEKIX_API_KEY] unset or
    empty) every tool call throws before any request is issued (the request
    log stays empty, whatever the upstream would answer), and the message
    names [TRADEKIX_API_KEY], says where to obtain a key and spells out the
    provisioning call. *)
Theorem missing_credential_fails_before_network (c : ToolCall) (w : World) :
  key_missing (TRADEKIX_API_KEY w) = true ->
  run (handler c) w = (inl (Error missing_key_message), []) /\
  contains "TRADEKIX_API_KEY" missing_key_message = true /\
  contains "https://www.tradekix.ai/ai-agent-access" missing_key_message = true /\
  contains provisioning_call missing_key_message = true.
Proof.
  intros H. split; [|repeat split].
  unfold run. now apply handler_missing.
Qed.

Lemma missing_credential_fails_before_network_witness :
  key_missing (TRADEKIX_API_KEY (sample_world (Some "") (Some rate_limited))) = true /\
  run (handler (call_prices "AAPL" None None None))
      (sample_world (Some "") (Some rate_limited))
    = (inl (Error missing_key_message), []).
Proof.
  split; [reflexivity|].
  apply (missing_credential_fails_before_network
           (call_prices "AAPL" None None None)
           (sample_world (Some "") (Some rate_limited))).
  reflexivity.
Defined.

(** A plain path has no question mark and no hash, so the URL built on
    it has no query and no fragment of its own. *)
Lemma plain_path_no_query (s : string) :
  plain_path s = true ->
  count_char "?" s = 0%nat /\ count_char "#" s = 0%nat.
Proof.
  induction s as [|c s IH]; [split; reflexivity|].
  cbn [plain_path count_char]. intros H.
  apply andb_true_iff in H. destruct H as [Hc Hs].
  destruct (IH Hs) as [-> ->].
  destruct c as [[] [] [] [] [] [] [] []]; try discriminate Hc;
    split; reflexivity.
Qed.

Lemma endpoint_url_no_query (endpoint : string) :
  plain_path endpoint = true ->
  count_char "?" (BASE_URL ++ "/" ++ endpoint) = 0%nat /\
  count_char "#" (BASE_URL ++ "/" ++ endpoint) = 0%nat.
Proof.
  intros H. destruct (plain_path_no_query endpoint H) as [Hq Hf].
  split; [exact Hq|exact Hf].
Qed.

(** C4 -- For an endpoint that is a plain path (letters, digits, [/], [-]
    and [_], as the ten endpoints of the handlers are), the one request
    [makeRequest] issues for a parameter object carries the URL built from
    [BASE_URL] and the endpoint, which has no question mark of its own,
    followed by the query of its search parameters; and these are exactly
    the entries of the parameter object whose value is a non-empty string:
    a key whose value is missing, [undefined], [null] or the empty string
    is not among them. *)
Theorem absent_or_empty_params_omitted
    (endpoint : string) (ps : Params) (w : World) (key : string) :
  TRADEKIX_API_KEY w = Some key -> key <> "" ->
  plain_path endpoint = true ->
  NoDup (keys ps) ->
  exists u : URL,
    snd (run (makeRequest endpoint (Some ps)) w)
      = [mkRequest (URL_toString u) [("X-API-Key", key)]] /\
    url_base u = BASE_URL ++ "/" ++ endpoint /\
    (forall k, absent_or_empty (lookup k ps) = true ->
               ~ In k (keys (searchParams u))) /\
    (forall k v, In (k, v) (searchParams u) <->
                 (lookup k ps = Some (PString v) /\ v <> "")) /\
    URL_toString u = with_query (url_base u) (searchParams u) /\
    count_char "?" (url_base u) = 0%nat /\
    count_char "#" (url_base u) = 0%nat.
Proof.
  intros Hk Hne Hplain Hnd. exists (request_url endpoint (Some ps)).
  assert (url_base (request_url endpoint (Some ps)) = BASE_URL ++ "/" ++ endpoint)
    as Hbase by (unfold request_url; now rewrite fold_add_param_base).
  split; [|split; [|split; [|split; [|split]]]].
  - unfold run. rewrite (makeRequest_present w [] endpoint (Some ps) key Hk Hne).
    cbv zeta. destruct (network w [] _) as [|[[data|]]]; reflexivity.
  - exact Hbase.
  - intros k. now apply request_url_omits.
  - intros k v. now apply request_url_params.
  - unfold URL_toString, with_query.
    destruct (searchParams (request_url endpoint (Some ps))); reflexivity.
  - rewrite Hbase. now apply endpoint_url_no_query.
Qed.

Lemma absent_or_empty_params_omitted_witness :
  exists u : URL,
    snd (run (makeRequest "market/prices"
                (Some [("symbol", PString "AAPL"); ("from", PString "");
                       ("to", PNull); ("limit", PUndefined)]))
           (sample_world (Some sample_key) (Some rate_limited)))
      = [mkRequest (URL_toString u) [("X-API-Key", sample_key)]] /\
    url_base u = BASE_URL ++ "/" ++ "market/prices" /\
    (forall k,
        absent_or_empty
          (lookup k [("symbol", PString "AAPL"); ("from", PString "");
                     ("to", PNull); ("limit", PUndefined)]) = true ->
        ~ In k (keys (searchParams u))) /\
    (forall k v,
        In (k, v) (searchParams u) <->
        (lookup k [("symbol", PString "AAPL"); ("from", PString "");
                   ("to", PNull); ("limit", PUndefined)] = Some (PString v)
         /\ v <> "")) /\
    URL_toString u = with_query (url_base u) (searchParams u) /\
    count_char "?" (url_base u) = 0%nat /\
    count_char "#" (url_base u) = 0%nat.
Proof.
  apply (absent_or_empty_params_omitted "market/prices"
           [("symbol", PString "AAPL"); ("from", PString "");
            ("to", PNull); ("limit", PUndefined)]
           (sample_world (Some sample_key) (Some rate_limited)) sample_key).
  - reflexivity.
  - discriminate.
  - reflexivity.
  - repeat constructor; simpl; intuition discriminate.
Defined.



(** The sentiment request for [financial_only: false] alone. *)
Example sentiment_false_url :
  snd (run (handler (call_sentiment None (Some false)))
         (sample_world (Some sample_key) (Some rate_limited)))
  = [mkRequest
       "https://tradekix-alpha.vercel.app/api/v1/social/sentiment?financial_only=false"
       [("X-API-Key", sample_key)]].
Proof. reflexivity. Qed.

(** Number::toString on 30, 1.5, 0.000001, 1e-7, 1e21, 1e20, -2.5e-10
    and 123.45. *)
Example number_texts :
  map Number_toString
    [integer 30; Finite false "15" 1; Finite false "1" (-5);
     Finite false "1" (-6); integer 1000000000000000000000;
     integer 100000000000000000000; Finite true "25" (-9);
     Finite false "12345" 3]
  = ["30"; "1.5"; "0.000001"; "1e-7"; "1e+21"; "100000000000000000000";
     "-2.5e-10"; "123.45"].
Proof. reflexivity. Qed.

(** [JSON.parse] at the ends of the range of the doubles: the largest
    double and the least one are read as written, a larger decimal is an
    infinity, a smaller one a zero of its sign. *)
Example number_range :
  map JSON_parse
    ["1.7976931348623157e308"; "1.7976931348623159e308"; "-1e999";
     "5e-324"; "2e-324"; "-1e-999"; "-0.0"; "0"]
  = map (fun x => Some (VNum x))
      [Finite false "17976931348623157" 309; Infinite false; Infinite true;
       Finite false "5" (-323); Zero; NegZero; NegZero; Zero].
Proof. vm_compute. reflexivity. Qed.

(** A quote [{symbol: AAPL, price: 123.45, change: -0.5}] printed and read
    back. *)
Example quote_round_trip :
  let quote_data :=
    VObj [("symbol", VStr "AAPL"); ("price", VNum (Finite false "12345" 3));
          ("change", VNum (Finite true "5" 0))] in
  JSON_stringify quote_data
  = Some ("{" ++ nl ++
          "  " ++ dq ++ "symbol" ++ dq ++ ": " ++ dq ++ "AAPL" ++ dq ++ "," ++ nl ++
          "  " ++ dq ++ "price" ++ dq ++ ": 123.45," ++ nl ++
          "  " ++ dq ++ "change" ++ dq ++ ": -0.5" ++ nl ++
          "}")
  /\ is_json quote_data = true
  /\ match JSON_stringify quote_data with
     | Some txt => JSON_parse txt
     | None => None
     end = Some quote_data.
Proof. repeat split. Qed.

(** The envelope [{success: true, data: {x: 1}}]. *)
Example success_x1_text :
  fst (run (handler call_news)
         (sample_world (Some sample_key)
            (Some (VObj [("success", VBool true);
                         ("data", VObj [("x", VNum (integer 1))])])))) =
  inr (mkToolResult
         [mkContent "text"
            (Some ("{" ++ nl ++ "  " ++ dq ++ "x" ++ dq ++ ": 1" ++ nl ++ "}"))]).
Proof. reflexivity. Qed.

(** C6 (as amended) -- When the body is a JSON object whose [success] is
    [true] and whose [data] field is there and holds a JSON value with no
    infinite number and no negative zero in it, the handler returns one
    text block whose text is [JSON.stringify (data, null, 2)] of that
    value, and [JSON.parse] of this text gives the value back. *)
Theorem success_data_round_trip
    (c : ToolCall) (w : World) (key : string)
    (props : list (string * value)) (d : value) :
  TRADEKIX_API_KEY w = Some key -> key <> "" ->
  network w [] (call_request c key)
    = Fulfilled (mkResponse (Some (VObj props))) ->
  lookup "success" props = Some (VBool true) ->
  lookup "data" props = Some d ->
  lossless d = true ->
  exists txt : string,
    run (handler c) w
      = (inr (mkToolResult [mkContent "text" (Some txt)]), [call_request c key]) /\
    JSON_stringify d = Some txt /\
    JSON_parse txt = Some d.
Proof.
  intros Hk Hne Hnet Hs Hd Hj.
  destruct (JSON_roundtrip d Hj) as [txt [E1 E2]].
  exists txt. split; [|split; assumption].
  unfold run. rewrite (handler_present w [] c key Hk Hne). cbv zeta.
  rewrite Hnet. unfold envelope_outcome, field, get. rewrite Hs, Hd.
  simpl. unfold text_result. now rewrite E1.
Qed.

Lemma success_data_round_trip_witness :
  exists txt : string,
    run (handler call_market_overview)
        (sample_world (Some sample_key)
           (Some (VObj [("success", VBool true);
                        ("data", VObj [("x", VNum (integer 1))])])))
      = (inr (mkToolResult [mkContent "text" (Some txt)]),
         [call_request call_market_overview sample_key]) /\
    JSON_stringify (VObj [("x", VNum (integer 1))]) = Some txt /\
    JSON_parse txt = Some (VObj [("x", VNum (integer 1))]).
Proof.
  apply (success_data_round_trip call_market_overview
           (sample_world (Some sample_key)
              (Some (VObj [("success", VBool true);
                           ("data", VObj [("x", VNum (integer 1))])])))
           sample_key
           [("success", VBool true); ("data", VObj [("x", VNum (integer 1))])]
           (VObj [("x", VNum (integer 1))])).
  - reflexivity.
  - discriminate.
  - reflexivity.
  - reflexivity.
  - reflexivity.
  - reflexivity.
Defined.

(** With [success] true and no [data] field, [makeRequest] returns
    [undefined], [JSON.stringify] gives [undefined], and the text block has
    no text. *)
Example success_without_data :
  fst (run (handler call_news)
         (sample_world (Some sample_key) (Some (VObj [("success", VBool true)]))))
  = inr (mkToolResult [mkContent "text" None]).
Proof. reflexivity. Qed.

(** C6, counterexample -- three bodies whose [success] is [true] and whose
    text does not read back as [data].  The body [{success: true}] has no
    [data]: the text block has no text at all, so there is no JSON to
    parse.  In the body [{success: true, data: 1e999}] the number is read
    as an infinity, the text is [null], and [null] is not that number.  In
    the body [{success: true, data: -0}] the text is [0], which reads back
    as the positive zero. *)
Lemma success_text_does_not_read_back :
  (is_json (VObj [("success", VBool true)]) = true /\
   fst (run (handler call_news)
          (sample_world (Some sample_key)
             (Some (VObj [("success", VBool true)]))))
   = inr (mkToolResult [mkContent "text" None])) /\
  (JSON_parse overflowing_body
   = Some (VObj [("success", VBool true); ("data", VNum (Infinite false))]) /\
   fst (run (handler call_news)
          (sample_world (Some sample_key) (JSON_parse overflowing_body)))
   = inr (mkToolResult [mkContent "text" (Some "null")]) /\
   JSON_parse "null" = Some VNull /\
   VNull <> VNum (Infinite false)) /\
  (JSON_parse negative_zero_body
   = Some (VObj [("success", VBool true); ("data", VNum NegZero)]) /\
   fst (run (handler call_news)
          (sample_world (Some sample_key) (JSON_parse negative_zero_body)))
   = inr (mkToolResult [mkContent "text" (Some "0")]) /\
   JSON_parse "0" = Some (VNum Zero) /\
   VNum Zero <> VNum NegZero).
Proof.
  split; [split; reflexivity|].
  split; (split; [vm_compute; reflexivity|]);
    (split; [vm_compute; reflexivity|]);
    (split; [vm_compute; reflexivity|discriminate]).
Qed.

(** C7 (as amended) -- A tool invocation issues at most one upstream
    request and never a second one, whatever the first one brought: none
    when no credential is configured, exactly one otherwise, also when the
    fetch is rejected or the body is unusable.  An invocation that returns
    gives one ToolResult, made of one text block. *)
Theorem at_most_one_round_trip (c : ToolCall) (w : World) :
  (length (snd (run (handler c) w)) <= 1)%nat /\
  snd (run (handler c) w) =
  match TRADEKIX_API_KEY w with
  | None => []
  | Some key => if key =? "" then [] else [call_request c key]
  end /\
  match fst (run (handler c) w) with
  | inr tr => exists data, tr = text_result data
  | inl _ => True
  end.
Proof.
  assert (snd (run (handler c) w) =
          match TRADEKIX_API_KEY w with
          | None => []
          | Some key => if key =? "" then [] else [call_request c key]
          end) as E.
  { destruct (TRADEKIX_API_KEY w) as [key|] eqn:Hk.
    - destruct (String.eqb_spec key "") as [->|Hne].
      + unfold run. rewrite handler_missing; [reflexivity|now rewrite Hk].
      + now apply handler_log.
    - unfold run. rewrite handler_missing; [reflexivity|now rewrite Hk]. }
  split; [|split; [exact E|]].
  - rewrite E.
    destruct (TRADEKIX_API_KEY w) as [key|]; [destruct (key =? "")|]; simpl; lia.
  - destruct (fst (run (handler c) w)) as [e|tr] eqn:Hr; [exact I|].
    now apply (handler_result_shape c w).
Qed.

(** C7, counterexample -- with no credential configured the invocation
    makes no round trip at all, and ends in an exception, not a
    ToolResult. *)
Lemma no_round_trip_without_credential :
  run (handler call_news) (sample_world None (Some rate_limited))
  = (inl (Error missing_key_message), []) /\
  length (snd (run (handler call_news) (sample_world None (Some rate_limited))))
  <> 1%nat.
Proof. split; [reflexivity|discriminate]. Qed.

(** C8 -- The URL [makeRequest] fetches is built from the endpoint and the
    parameter object alone: two runs that differ in the credential (and in
    anything else of the world) issue one request each, to the same URL,
    and each carries its credential in the [X-API-Key] header, the only
    header of the request. *)
Theorem credential_only_in_header
    (endpoint : string) (params : option Params)
    (w1 w2 : World) (key1 key2 : string) :
  TRADEKIX_API_KEY w1 = Some key1 -> key1 <> "" ->
  TRADEKIX_API_KEY w2 = Some key2 -> key2 <> "" ->
  exists r1 r2 : Request,
    snd (run (makeRequest endpoint params) w1) = [r1] /\
    snd (run (makeRequest endpoint params) w2) = [r2] /\
    req_url r1 = req_url r2 /\
    req_url r1 = URL_toString (request_url endpoint params) /\
    req_headers r1 = [("X-API-Key", key1)] /\
    req_headers r2 = [("X-API-Key", key2)].
Proof.
  intros H1 N1 H2 N2.
  exists (outbound_request endpoint params key1),
         (outbound_request endpoint params key2).
  repeat split.
  - unfold run. rewrite (makeRequest_present w1 [] endpoint params key1 H1 N1).
    cbv zeta. destruct (network w1 [] _) as [|[[data|]]]; reflexivity.
  - unfold run. rewrite (makeRequest_present w2 [] endpoint params key2 H2 N2).
    cbv zeta. destruct (network w2 [] _) as [|[[data|]]]; reflexivity.
Qed.

Lemma credential_only_in_header_witness :
  exists r1 r2 : Request,
    snd (run (makeRequest "market/forex" (Some [("symbol", PString "EUR/USD")]))
           (sample_world (Some "tk_live_A") (Some rate_limited))) = [r1] /\
    snd (run (makeRequest "market/forex" (Some [("symbol", PString "EUR/USD")]))
           unreachable_world) = [r2] /\
    req_url r1 = req_url r2 /\
    req_url r1 = URL_toString (request_url "market/forex"
                                 (Some [("symbol", PString "EUR/USD")])) /\
    req_headers r1 = [("X-API-Key", "tk_live_A")] /\
    req_headers r2 = [("X-API-Key", sample_key)].
Proof.
  apply (credential_only_in_header "market/forex"
           (Some [("symbol", PString "EUR/USD")])
           (sample_world (Some "tk_live_A") (Some rate_limited))
           unreachable_world "tk_live_A" sample_key).
  - reflexivity.
  - discriminate.
  - reflexivity.
  - discriminate.
Defined.

(** C9 (as amended) -- When the body parses to a JSON value other than
    [null] (an object, an array, a string, a number, a boolean) and its
    [success] is falsy (a missing key, [false], [0], [null], the empty
    string), [makeRequest] returns the normalized error object, whose
    [error] is the body's [error] ([undefined] when the body has none), and
    throws nothing. *)
Theorem falsy_success_is_business_error
    (endpoint : string) (params : option Params) (w : World)
    (key : string) (data : value) :
  TRADEKIX_API_KEY w = Some key -> key <> "" ->
  network w [] (outbound_request endpoint params key)
    = Fulfilled (mkResponse (Some data)) ->
  data <> VNull -> data <> VUndefined ->
  truthy (field data "success") = false ->
  exists result : value,
    run (makeRequest endpoint params) w
      = (inr result, [outbound_request endpoint params key]) /\
    result = normalized_error (field data "error") (field data "upgrade")
               (field data "retry_after_seconds") /\
    field result "error" = field data "error".
Proof.
  intros Hk Hne Hnet Hnull Hundef Hs.
  eexists. split; [|split; [reflexivity|apply field_normalized_error]].
  unfold run. rewrite (makeRequest_present w [] endpoint params key Hk Hne).
  cbv zeta. rewrite Hnet. simpl app. unfold envelope_outcome. rewrite Hs.
  destruct data; try reflexivity; contradiction.
Qed.

(** A body without a [success] key: [{error: "quota exceeded"}]. *)
Lemma falsy_success_is_business_error_witness :
  exists result : value,
    run (makeRequest "news/summary" None)
        (sample_world (Some sample_key)
           (Some (VObj [("error", VStr "quota exceeded")])))
      = (inr result, [outbound_request "news/summary" None sample_key]) /\
    result = VObj [("error", VStr "quota exceeded")] /\
    field result "error" = VStr "quota exceeded".
Proof.
  apply (falsy_success_is_business_error "news/summary" None
           (sample_world (Some sample_key)
              (Some (VObj [("error", VStr "quota exceeded")])))
           sample_key (VObj [("error", VStr "quota exceeded")])).
  - reflexivity.
  - discriminate.
  - reflexivity.
  - discriminate.
  - discriminate.
  - reflexivity.
Defined.

(** The ways of being falsy the claim lists, and the bodies that are not
    objects. *)
Example falsy_success_cases :
  truthy (field (VObj [("error", VStr "e")]) "success") = false /\
  truthy (field (VObj [("success", VBool false)]) "success") = false /\
  truthy (field (VObj [("success", VNum (integer 0))]) "success") = false /\
  truthy (field (VObj [("success", VNull)]) "success") = false /\
  truthy (field (VArr []) "success") = false /\
  truthy (field (VStr "ok") "success") = false /\
  truthy (field (VNum (integer 1)) "success") = false /\
  truthy (field (VBool true) "success") = false.
Proof. repeat split. Qed.

(** C9, counterexample -- the body [null] is valid JSON and has no
    [success] field; reading [data.success] throws a TypeError, which
    leaves [makeRequest]. *)
Lemma null_body_throws :
  is_json VNull = true /\
  run (makeRequest "market/overview" None)
      (sample_world (Some sample_key) (Some VNull))
  = (inl TypeError, [outbound_request "market/overview" None sample_key]) /\
  ~ (exists result : value,
        fst (run (makeRequest "market/overview" None)
               (sample_world (Some sample_key) (Some VNull))) = inr result).
Proof.
  split; [reflexivity|]. split; [reflexivity|].
  intros [result H]. discriminate H.
Qed.

(** C10 -- The prices tool called with the empty string as [symbol] still
    goes to the adapter: with a credential configured exactly one request
    is issued, to [market/prices]; [symbol] is not among its search
    parameters, whatever [from], [to] and [limit] are; and with those three
    left out the URL is the bare endpoint, with no query at all. *)
Theorem prices_empty_symbol_dropped
    (w : World) (key : string) (from to limit : option string) :
  TRADEKIX_API_KEY w = Some key -> key <> "" ->
  (exists u : URL,
      snd (run (handler (call_prices "" from to limit)) w)
        = [mkRequest (URL_toString u) [("X-API-Key", key)]] /\
      url_base u = "https://tradekix-alpha.vercel.app/api/v1/market/prices" /\
      ~ In "symbol" (keys (searchParams u))) /\
  snd (run (handler (call_prices "" None None None)) w)
    = [mkRequest "https://tradekix-alpha.vercel.app/api/v1/market/prices"
         [("X-API-Key", key)]].
Proof.
  intros Hk Hne. split.
  - exists (request_url "market/prices" (Some (prices_params "" from to limit))).
    split; [|split].
    + now apply (handler_log (call_prices "" from to limit)).
    + unfold request_url. now rewrite fold_add_param_base.
    + apply (not_forwarded_in_url (call_prices "" from to limit) _ _ eq_refl).
      now rewrite prices_symbol_lookup.
  - now rewrite (handler_log _ w key Hk Hne).
Qed.

Lemma prices_empty_symbol_dropped_witness :
  (exists u : URL,
      snd (run (handler (call_prices "" (Some "2024-01-01") None (Some "5")))
             (sample_world (Some sample_key) (Some rate_limited)))
        = [mkRequest (URL_toString u) [("X-API-Key", sample_key)]] /\
      url_base u = "https://tradekix-alpha.vercel.app/api/v1/market/prices" /\
      ~ In "symbol" (keys (searchParams u))) /\
  snd (run (handler (call_prices "" None None None))
         (sample_world (Some sample_key) (Some rate_limited)))
    = [mkRequest "https://tradekix-alpha.vercel.app/api/v1/market/prices"
         [("X-API-Key", sample_key)]].
Proof.
  apply (prices_empty_symbol_dropped
           (sample_world (Some sample_key) (Some rate_limited)) sample_key
           (Some "2024-01-01") None (Some "5")).
  - reflexivity.
  - discriminate.
Defined.

(** * Further properties of the adapter and the handlers *)

(** ** The query, entry by entry *)

Lemma searchParams_set_fresh (n v : string) (l : list (string * string)) :
  ~ In n (keys l) -> searchParams_set n v l = (l ++ [(n, v)])%list.
Proof.
  induction l as [|[n' v'] l IH]; simpl; [reflexivity|].
  intros H. destruct (String.eqb_spec n' n) as [->|Hne]; [tauto|].
  rewrite IH; [reflexivity|tauto].
Qed.

Lemma kept_app (a b : Params) :
  kept (a ++ b)%list = (kept a ++ kept b)%list.
Proof. unfold kept. apply flat_map_app. Qed.

Lemma add_params_in_order (ps : Params) :
  NoDup (keys ps) ->
  forall u : URL,
    (forall k, In k (keys ps) -> ~ In k (keys (searchParams u))) ->
    searchParams (fold_left add_param ps u) = (searchParams u ++ kept ps)%list.
Proof.
  induction ps as [|[k p] ps IH]; intros Hnd u Hfresh.
  - simpl. now rewrite app_nil_r.
  - simpl fold_left.
    change (kept ((k, p) :: ps)) with (kept ([(k, p)] ++ ps)%list).
    rewrite kept_app.
    inversion Hnd as [|? ? Hnotin Hnd']; subst.
    assert (searchParams (add_param u (k, p))
            = (searchParams u ++ kept [(k, p)])%list) as Hstep.
    { unfold add_param, kept. simpl.
      destruct p as [| |v]; simpl; try (now rewrite app_nil_r).
      destruct (v =? ""); simpl; [now rewrite app_nil_r|].
      apply searchParams_set_fresh. apply Hfresh. now left. }
    rewrite IH; [| assumption |].
    + rewrite Hstep, <- app_assoc. reflexivity.
    + intros k' Hk' Hin. rewrite Hstep in Hin.
      unfold keys in Hin. rewrite map_app in Hin. apply in_app_or in Hin.
      destruct Hin as [Hin|Hin].
      * apply (Hfresh k'); [now right|exact Hin].
      * unfold kept in Hin. simpl in Hin.
        destruct p as [| |v]; simpl in Hin; try contradiction.
        destruct (v =? ""); simpl in Hin; [contradiction|].
        destruct Hin as [<-|[]]. now apply Hnotin.
Qed.

Lemma request_url_kept (endpoint : string) (ps : Params) :
  NoDup (keys ps) ->
  URL_toString (request_url endpoint (Some ps))
  = with_query (BASE_URL ++ "/" ++ endpoint) (kept ps).
Proof.
  intros Hnd. unfold URL_toString, with_query, request_url.
  rewrite fold_add_param_base.
  rewrite (add_params_in_order ps Hnd); [|intros k _ []].
  simpl. destruct (kept ps); reflexivity.
Qed.

Lemma makeRequest_log (endpoint : string) (params : option Params)
    (w : World) (key : string) :
  TRADEKIX_API_KEY w = Some key -> key <> "" ->
  snd (run (makeRequest endpoint params) w)
  = [outbound_request endpoint params key].
Proof.
  intros Hk Hne. unfold run.
  rewrite (makeRequest_present w [] endpoint params key Hk Hne). cbv zeta.
  destruct (network w [] _) as [|[[data|]]]; reflexivity.
Qed.

(** X1 -- For an endpoint that is a plain path (letters, digits, [/], [-]
    and [_]) and a parameter object (its keys distinct), the request
    [makeRequest] issues has as its query exactly the entries whose value
    is a non-empty string, once each and in the order of the object; the
    part before the query has no question mark, so with no such entry the
    URL has no query and no question mark at all. *)
Theorem query_in_entry_order
    (endpoint : string) (ps : Params) (w : World) (key : string) :
  TRADEKIX_API_KEY w = Some key -> key <> "" ->
  plain_path endpoint = true ->
  NoDup (keys ps) ->
  snd (run (makeRequest endpoint (Some ps)) w)
  = [mkRequest (with_query (BASE_URL ++ "/" ++ endpoint) (kept ps))
       [("X-API-Key", key)]] /\
  count_char "?" (BASE_URL ++ "/" ++ endpoint) = 0%nat.
Proof.
  intros Hk Hne Hplain Hnd. split.
  - rewrite (makeRequest_log _ _ w key Hk Hne).
    unfold outbound_request. now rewrite request_url_kept.
  - exact (proj1 (endpoint_url_no_query endpoint Hplain)).
Qed.

Lemma query_in_entry_order_witness :
  snd (run (makeRequest "trades/congressional"
              (Some [("symbol", PString "NVDA"); ("politician", PString "");
                     ("party", PString "Democrat"); ("type", PNull);
                     ("to", PString "2024-12-31")]))
         (sample_world (Some sample_key) (Some rate_limited)))
  = [mkRequest
       "https://tradekix-alpha.vercel.app/api/v1/trades/congressional?symbol=NVDA&party=Democrat&to=2024-12-31"
       [("X-API-Key", sample_key)]] /\
  count_char "?" "https://tradekix-alpha.vercel.app/api/v1/trades/congressional"
  = 0%nat.
Proof.
  apply (query_in_entry_order "trades/congressional"
           [("symbol", PString "NVDA"); ("politician", PString "");
            ("party", PString "Democrat"); ("type", PNull);
            ("to", PString "2024-12-31")]
           (sample_world (Some sample_key) (Some rate_limited)) sample_key).
  - reflexivity.
  - discriminate.
  - reflexivity.
  - repeat constructor; simpl; intuition discriminate.
Defined.

(** ** What each tool forwards *)

Lemma assign_new {A : Type} (k : string) (a : A) (l : list (string * A)) :
  ~ In k (keys l) -> assign k a l = (l ++ [(k, a)])%list.
Proof.
  induction l as [|[k0 a0] l IH]; simpl; [reflexivity|].
  intros H. destruct (String.eqb_spec k0 k) as [->|Hne]; [tauto|].
  rewrite IH; [reflexivity|tauto].
Qed.

Lemma forwarded_cons (k : string) (x : option string)
    (args : list (string * option string)) :
  forwarded ((k, x) :: args)
  = (match x with
     | Some v => if v =? "" then [] else [(k, v)]
     | None => []
     end ++ forwarded args)%list.
Proof. reflexivity. Qed.

Lemma kept_snoc (init : Params) (k v : string) :
  kept (init ++ [(k, PString v)])%list
  = (kept init ++ (if v =? "" then [] else [(k, v)]))%list.
Proof.
  rewrite kept_app. f_equal. unfold kept. simpl. apply app_nil_r.
Qed.

(** The chain of [if (x) params.k = x;] statements of a handler. *)
Lemma kept_assign_if_chain (args : list (string * option string)) :
  forall init : Params,
    NoDup (keys init ++ keys args) ->
    kept (fold_left (fun ps kx => assign_if (fst kx) (snd kx) ps) args init)
    = (kept init ++ forwarded args)%list.
Proof.
  induction args as [|[k x] args IH]; intros init Hnd.
  - simpl. now rewrite app_nil_r.
  - assert (~ In k (keys init)) as Hk.
    { intros Hin. apply NoDup_remove_2 in Hnd. apply Hnd.
      apply in_or_app. now left. }
    assert (NoDup (keys init ++ keys args)) as Hnd'
      by (now apply NoDup_remove_1 in Hnd).
    rewrite forwarded_cons.
    change (fold_left (fun ps kx => assign_if (fst kx) (snd kx) ps)
              ((k, x) :: args) init)
      with (fold_left (fun ps kx => assign_if (fst kx) (snd kx) ps)
              args (assign_if k x init)).
    unfold assign_if at 2.
    destruct x as [v|]; [destruct (v =? "") eqn:Ev|].
    + now rewrite (IH init Hnd').
    + rewrite (assign_new k (PString v) init Hk).
      rewrite IH.
      * now rewrite kept_snoc, Ev, <- app_assoc.
      * unfold keys. rewrite map_app. simpl. rewrite <- app_assoc. exact Hnd.
    + now rewrite (IH init Hnd').
Qed.

Lemma assign_defined_as_if (k : string) (x : option bool) (ps : Params) :
  assign_defined k x ps = assign_if k (option_map String_of_bool x) ps.
Proof. destruct x as [[]|]; reflexivity. Qed.

Lemma call_params_kept (c : ToolCall) :
  match call_params c with
  | Some ps => kept ps
  | None => []
  end = forwarded (call_arguments c).
Proof.
  destruct c; simpl call_params; try reflexivity;
    unfold prices_params, indices_params, forex_params, economic_events_params,
      congressional_trades_params, sentiment_params, tweets_params;
    rewrite ?assign_defined_as_if;
    cbv zeta;
    try (match goal with
         | |- _ = forwarded ?a => apply (kept_assign_if_chain a [])
         end;
         repeat constructor; simpl; intuition discriminate).
  change (kept (fold_left (fun ps kx => assign_if (fst kx) (snd kx) ps)
                  [("from", from); ("to", to); ("limit", limit)]
                  [("symbol", PString symbol)])
          = forwarded (call_arguments (call_prices symbol from to limit))).
  rewrite kept_assign_if_chain;
    [|repeat constructor; simpl; intuition discriminate].
  simpl call_arguments. rewrite forwarded_cons. unfold kept. simpl flat_map.
  now rewrite app_nil_r.
Qed.

Lemma call_request_url (c : ToolCall) (key : string) :
  req_url (call_request c key)
  = with_query (BASE_URL ++ "/" ++ call_endpoint c)
      (forwarded (call_arguments c)).
Proof.
  unfold call_request, outbound_request. simpl req_url.
  rewrite <- call_params_kept.
  destruct (call_params c) as [ps|] eqn:E.
  - apply request_url_kept. now apply (call_params_NoDup c).
  - reflexivity.
Qed.

(** X2 -- Each of the ten tools sends one request to its own endpoint, and
    the query of that request holds exactly the arguments of the call that
    are given and are not the empty string, under the names and in the
    order of the handler; an enumerated argument goes by its literal, a
    boolean as [true] or [false]. *)
Theorem tool_forwards_given_arguments (c : ToolCall) (w : World) (key : string) :
  TRADEKIX_API_KEY w = Some key -> key <> "" ->
  snd (run (handler c) w)
  = [mkRequest
       (with_query (BASE_URL ++ "/" ++ call_endpoint c)
          (forwarded (call_arguments c)))
       [("X-API-Key", key)]].
Proof.
  intros Hk Hne. rewrite (handler_log c w key Hk Hne).
  rewrite <- (call_request_url c key). reflexivity.
Qed.

Lemma tool_forwards_given_arguments_witness :
  snd (run (handler (call_economic_events (Some "US") (Some high)
                       (Some "") (Some "2025-01-31")))
         (sample_world (Some sample_key) (Some rate_limited)))
  = [mkRequest
       "https://tradekix-alpha.vercel.app/api/v1/events/economic?country=US&impact=high&to=2025-01-31"
       [("X-API-Key", sample_key)]].
Proof.
  apply (tool_forwards_given_arguments
           (call_economic_events (Some "US") (Some high) (Some "")
              (Some "2025-01-31"))
           (sample_world (Some sample_key) (Some rate_limited)) sample_key).
  - reflexivity.
  - discriminate.
Defined.

Lemma forwarded_nothing (args : list (string * option string)) :
  (forall k x, In (k, x) args -> x = None \/ x = Some "") ->
  forwarded args = [].
Proof.
  induction args as [|[k x] args IH]; intros H; [reflexivity|].
  unfold forwarded. simpl.
  destruct (H k x (or_introl eq_refl)) as [-> | ->]; simpl;
    apply IH; intros k' x' Hin; apply (H k' x'); now right.
Qed.

(** X3 -- A tool called with no argument at all, or with arguments that
    are all left out or empty strings, fetches the bare endpoint: the URL
    has no query and no question mark. *)
Theorem no_arguments_bare_endpoint (c : ToolCall) (w : World) (key : string) :
  TRADEKIX_API_KEY w = Some key -> key <> "" ->
  (forall k x, In (k, x) (call_arguments c) -> x = None \/ x = Some "") ->
  snd (run (handler c) w)
  = [mkRequest (BASE_URL ++ "/" ++ call_endpoint c) [("X-API-Key", key)]].
Proof.
  intros Hk Hne Hargs. rewrite (handler_log c w key Hk Hne).
  unfold call_request, outbound_request.
  change (URL_toString (request_url (call_endpoint c) (call_params c)))
    with (req_url (call_request c key)).
  now rewrite call_request_url, (forwarded_nothing _ Hargs).
Qed.

Lemma no_arguments_bare_endpoint_witness :
  snd (run (handler (call_congressional_trades None (Some "") None None
                       (Some "") None))
         (sample_world (Some sample_key) (Some rate_limited)))
  = [mkRequest "https://tradekix-alpha.vercel.app/api/v1/trades/congressional"
       [("X-API-Key", sample_key)]].
Proof.
  apply (no_arguments_bare_endpoint
           (call_congressional_trades None (Some "") None None (Some "") None)
           (sample_world (Some sample_key) (Some rate_limited)) sample_key).
  - reflexivity.
  - discriminate.
  - simpl. intros k x H.
    repeat (destruct H as [H|H]; [injection H as <- <-; auto|]).
    destruct H.
Defined.

(** ** The two branches on [data.success] *)

(** X4 -- Whatever the type of [success], a truthy one makes [makeRequest]
    return the [data] field as it is, and [undefined] when there is none:
    the string [false], a non-zero number, an array or an object count as
    success. *)
Theorem truthy_success_returns_data
    (endpoint : string) (params : option Params) (w : World)
    (key : string) (data : value) :
  TRADEKIX_API_KEY w = Some key -> key <> "" ->
  network w [] (outbound_request endpoint params key)
    = Fulfilled (mkResponse (Some data)) ->
  truthy (field data "success") = true ->
  run (makeRequest endpoint params) w
  = (inr (field data "data"), [outbound_request endpoint params key]).
Proof.
  intros Hk Hne Hnet Hs. unfold run.
  rewrite (makeRequest_present w [] endpoint params key Hk Hne). cbv zeta.
  rewrite Hnet. simpl app. unfold envelope_outcome. rewrite Hs.
  destruct data; try reflexivity; discriminate Hs.
Qed.

(** The envelope [{success: "false", error: "down", data: [1]}]: the
    string is truthy. *)
Lemma truthy_success_returns_data_witness :
  run (makeRequest "news/summary" None)
      (sample_world (Some sample_key)
         (Some (VObj [("success", VStr "false"); ("error", VStr "down");
                      ("data", VArr [VNum (integer 1)])])))
  = (inr (VArr [VNum (integer 1)]),
     [outbound_request "news/summary" None sample_key]).
Proof.
  apply (truthy_success_returns_data "news/summary" None
           (sample_world (Some sample_key)
              (Some (VObj [("success", VStr "false"); ("error", VStr "down");
                           ("data", VArr [VNum (integer 1)])])))
           sample_key
           (VObj [("success", VStr "false"); ("error", VStr "down");
                  ("data", VArr [VNum (integer 1)])])).
  - reflexivity.
  - discriminate.
  - reflexivity.
  - reflexivity.
Defined.

Lemma serialize_undefined (indent : string) (v : value) :
  serialize indent v = None <-> v = VUndefined.
Proof.
  split; [|now intros ->].
  destruct v as [| |[]|n|str|items|props]; try discriminate; [reflexivity| |].
  - rewrite serialize_arr. destruct (elems _ items); discriminate.
  - rewrite serialize_obj. destruct (members _ props); discriminate.
Qed.

(** X5 -- When a body other than [null] has arrived, the handler returns
    one text block, and its text is missing ([undefined]) exactly when
    [success] is truthy and the body has no [data]; in every other case,
    the error branch included, there is a text. *)
Theorem text_missing_iff_no_data
    (c : ToolCall) (w : World) (key : string) (data : value) :
  TRADEKIX_API_KEY w = Some key -> key <> "" ->
  network w [] (call_request c key) = Fulfilled (mkResponse (Some data)) ->
  data <> VNull -> data <> VUndefined ->
  exists txt : option string,
    fst (run (handler c) w) = inr (mkToolResult [mkContent "text" txt]) /\
    (txt = None <->
     truthy (field data "success") = true /\ field data "data" = VUndefined).
Proof.
  intros Hk Hne Hnet Hnull Hundef.
  assert (fst (run (handler c) w)
          = inr (text_result
                   (if truthy (field data "success") then field data "data"
                    else normalized_error (field data "error")
                           (field data "upgrade")
                           (field data "retry_after_seconds")))) as E.
  { unfold run. rewrite (handler_present w [] c key Hk Hne). cbv zeta.
    rewrite Hnet. simpl fst. unfold envelope_outcome.
    destruct data; try contradiction;
      match goal with
      | |- context [truthy ?x] => destruct (truthy x); reflexivity
      end. }
  eexists. split; [exact E|].
  unfold JSON_stringify. rewrite serialize_undefined.
  destruct (truthy (field data "success")).
  - tauto.
  - rewrite normalized_error_props. split; [discriminate|].
    intros [H _]. discriminate H.
Qed.

Lemma text_missing_iff_no_data_witness :
  exists txt : option string,
    fst (run (handler call_earnings)
           (sample_world (Some sample_key)
              (Some (VObj [("success", VBool true)]))))
    = inr (mkToolResult [mkContent "text" txt]) /\
    (txt = None <->
     truthy (field (VObj [("success", VBool true)]) "success") = true /\
     field (VObj [("success", VBool true)]) "data" = VUndefined).
Proof.
  apply (text_missing_iff_no_data call_earnings
           (sample_world (Some sample_key)
              (Some (VObj [("success", VBool true)])))
           sample_key (VObj [("success", VBool true)])).
  - reflexivity.
  - discriminate.
  - reflexivity.
  - discriminate.
  - discriminate.
Defined.

(** ** The text of an error *)

Lemma members_cons_any (ind : string) (p : string * value)
    (ps : list (string * value)) :
  members ind (p :: ps)
  = (match serialize ind (snd p) with
     | Some s => [(quote (fst p) ++ ": " ++ s)%string]
     | None => []
     end ++ members ind ps)%list.
Proof. reflexivity. Qed.

(** A property that is [undefined] leaves no trace in the text. *)
Lemma members_defined (ind : string) (ps : list (string * value)) :
  members ind (filter (fun p => defined (snd p)) ps) = members ind ps.
Proof.
  induction ps as [|[k x] ps IH]; [reflexivity|].
  rewrite (members_cons_any ind (k, x) ps).
  cbn [filter snd fst].
  destruct (defined x) eqn:Ed.
  - rewrite (members_cons_any ind (k, x)). cbn [snd fst]. now rewrite IH.
  - destruct x; try discriminate Ed.
    change (serialize ind VUndefined) with (@None string). now rewrite IH.
Qed.

Lemma stringify_defined (ps : list (string * value)) :
  JSON_stringify (VObj (filter (fun p => defined (snd p)) ps))
  = JSON_stringify (VObj ps).
Proof.
  unfold JSON_stringify. rewrite !serialize_obj. now rewrite members_defined.
Qed.

(** What is written without loss is a value [JSON.parse] can produce. *)
Lemma lossless_is_json (v : value) : lossless v = true -> is_json v = true.
Proof.
  induction v as [| |b|n|str|items IH|props IH] using value_ind;
    try (intros H; exact H).
  - destruct n; intros H; try discriminate H; try reflexivity; exact H.
  - cbn [lossless is_json]. induction IH as [|x l Hx _ IHl]; [reflexivity|].
    cbn [forallb]. intros H. apply andb_true_iff in H. destruct H as [H1 H2].
    now rewrite (Hx H1), (IHl H2).
  - cbn [lossless is_json]. intros H. apply andb_true_iff in H.
    destruct H as [H Hd]. rewrite Hd, andb_true_r. clear Hd.
    induction IH as [|x l Hx _ IHl]; [reflexivity|].
    cbn [forallb] in *. apply andb_true_iff in H. destruct H as [H1 H2].
    now rewrite (Hx H1), (IHl H2).
Qed.

Lemma lossless_defined (v : value) : lossless v = true -> defined v = true.
Proof. destruct v; [discriminate|reflexivity..]. Qed.

Lemma truthy_defined (v : value) : truthy v = true -> defined v = true.
Proof. destruct v; [discriminate|reflexivity..]. Qed.

(** Every field of a body written without loss is missing or is itself
    written without loss. *)
Lemma lossless_field (data : value) (k : string) :
  lossless data = true ->
  field data k = VUndefined \/ lossless (field data k) = true.
Proof.
  intros Hj. destruct data; try (now left).
  unfold field, get. destruct (lookup k props) as [x|] eqn:E; [|now left].
  right. simpl in Hj. apply andb_true_iff in Hj. destruct Hj as [Hj _].
  rewrite forallb_forall in Hj. apply (Hj (k, x)). now apply lookup_In.
Qed.

(** A hint that overflowed to an infinity is truthy, is kept, and is
    written [null]. *)
Example infinite_hint_prints_null :
  fst (run (handler call_news)
         (sample_world (Some sample_key)
            (Some (VObj [("success", VBool false);
                         ("retry_after_seconds", VNum (Infinite false))]))))
  = inr (mkToolResult
           [mkContent "text"
              (Some ("{" ++ nl ++ "  " ++ dq ++ "retry_after_seconds" ++ dq
                     ++ ": null" ++ nl ++ "}"))]).
Proof. reflexivity. Qed.

(** X6 -- For a JSON body other than [null] that holds no infinite number
    and no negative zero, and whose [success] is falsy, the handler's text
    is valid JSON, and parsing it gives the object made of [error] if the
    body has one, [upgrade] if it is truthy and [retry_after_seconds] if it
    is truthy, in this order and nothing else: a body without [error] and
    hints gives the empty object. *)
Theorem error_text_reads_back
    (c : ToolCall) (w : World) (key : string) (data : value) :
  TRADEKIX_API_KEY w = Some key -> key <> "" ->
  network w [] (call_request c key) = Fulfilled (mkResponse (Some data)) ->
  lossless data = true -> data <> VNull ->
  truthy (field data "success") = false ->
  exists txt : string,
    fst (run (handler c) w) = inr (mkToolResult [mkContent "text" (Some txt)]) /\
    JSON_parse txt
    = Some (VObj ((if defined (field data "error")
                   then [("error", field data "error")] else [])
                  ++ (if truthy (field data "upgrade")
                      then [("upgrade", field data "upgrade")] else [])
                  ++ (if truthy (field data "retry_after_seconds")
                      then [("retry_after_seconds",
                             field data "retry_after_seconds")]
                      else []))%list).
Proof.
  intros Hk Hne Hnet Hj Hnull Hs.
  set (e := field data "error"). set (u := field data "upgrade").
  set (r := field data "retry_after_seconds").
  set (kept_props :=
         ((if defined e then [("error", e)] else [])
          ++ (if truthy u then [("upgrade", u)] else [])
          ++ (if truthy r then [("retry_after_seconds", r)] else []))%list).
  assert (fst (run (handler c) w) = inr (text_result (normalized_error e u r)))
    as E.
  { unfold run. rewrite (handler_present w [] c key Hk Hne). cbv zeta.
    rewrite Hnet. simpl fst. unfold envelope_outcome. rewrite Hs.
    destruct data; try reflexivity; try contradiction; discriminate Hj. }
  assert (JSON_stringify (normalized_error e u r)
          = JSON_stringify (VObj kept_props)) as Hsame.
  { rewrite normalized_error_props. rewrite <- stringify_defined.
    do 2 f_equal. unfold kept_props.
    cbn [app filter snd]. destruct (defined e) eqn:Ee.
    - destruct (truthy u) eqn:Eu, (truthy r) eqn:Er; cbn [app filter snd];
        rewrite ?(truthy_defined u Eu), ?(truthy_defined r Er); reflexivity.
    - destruct (truthy u) eqn:Eu, (truthy r) eqn:Er; cbn [app filter snd];
        rewrite ?(truthy_defined u Eu), ?(truthy_defined r Er); reflexivity. }
  assert (lossless (VObj kept_props) = true) as Hjson.
  { assert (forall v, truthy v = true ->
                      v = VUndefined \/ lossless v = true -> lossless v = true)
      as Hok.
    { intros v Hv [->|H]; [discriminate Hv|exact H]. }
    pose proof (lossless_field data "error" Hj) as He.
    pose proof (lossless_field data "upgrade" Hj) as Hu.
    pose proof (lossless_field data "retry_after_seconds" Hj) as Hr.
    fold e in He. fold u in Hu. fold r in Hr.
    unfold kept_props.
    destruct (defined e) eqn:Ee;
      [destruct He as [He|He]; [rewrite He in Ee; discriminate Ee|]|];
      destruct (truthy u) eqn:Eu, (truthy r) eqn:Er;
      cbn [app lossless forallb snd keys map fst];
      rewrite ?He, ?(Hok u Eu Hu), ?(Hok r Er Hr); reflexivity. }
  destruct (JSON_roundtrip (VObj kept_props) Hjson) as [txt [E1 E2]].
  exists txt. split; [|exact E2].
  rewrite E. unfold text_result. now rewrite Hsame, E1.
Qed.

Lemma error_text_reads_back_witness :
  exists txt : string,
    fst (run (handler call_news)
           (sample_world (Some sample_key)
              (Some (VObj [("upgrade", VStr "pro");
                           ("retry_after_seconds", VNum (integer 0))]))))
    = inr (mkToolResult [mkContent "text" (Some txt)]) /\
    JSON_parse txt = Some (VObj [("upgrade", VStr "pro")]).
Proof.
  apply (error_text_reads_back call_news
           (sample_world (Some sample_key)
              (Some (VObj [("upgrade", VStr "pro");
                           ("retry_after_seconds", VNum (integer 0))])))
           sample_key
           (VObj [("upgrade", VStr "pro");
                  ("retry_after_seconds", VNum (integer 0))])).
  - reflexivity.
  - discriminate.
  - reflexivity.
  - reflexivity.
  - discriminate.
  - reflexivity.
Defined.

(** X7 -- A body that is valid JSON but not an object (an array, a string,
    a number, a boolean) is taken for an error without message: the text
    of the result is the empty object. *)
Theorem non_object_body_renders_empty_object
    (c : ToolCall) (w : World) (key : string) (data : value) :
  TRADEKIX_API_KEY w = Some key -> key <> "" ->
  network w [] (call_request c key) = Fulfilled (mkResponse (Some data)) ->
  is_object data = false -> data <> VNull -> data <> VUndefined ->
  run (handler c) w
  = (inr (mkToolResult [mkContent "text" (Some "{}")]), [call_request c key]).
Proof.
  intros Hk Hne Hnet Hobj Hnull Hundef. unfold run.
  rewrite (handler_present w [] c key Hk Hne). cbv zeta. rewrite Hnet.
  destruct data; try contradiction; try discriminate Hobj; reflexivity.
Qed.

Lemma non_object_body_renders_empty_object_witness :
  run (handler (call_forex (Some "EUR/USD")))
      (sample_world (Some sample_key)
         (Some (VArr [VObj [("success", VBool true)]])))
  = (inr (mkToolResult [mkContent "text" (Some "{}")]),
     [call_request (call_forex (Some "EUR/USD")) sample_key]).
Proof.
  apply (non_object_body_renders_empty_object (call_forex (Some "EUR/USD"))
           (sample_world (Some sample_key)
              (Some (VArr [VObj [("success", VBool true)]])))
           sample_key (VArr [VObj [("success", VBool true)]])).
  - reflexivity.
  - discriminate.
  - reflexivity.
  - reflexivity.
  - discriminate.
  - discriminate.
Defined.

(** ** What the arguments cannot do to the URL *)











(** A symbol that tries to add a parameter and a fragment. *)
Example forged_symbol_is_escaped :
  req_url (call_request (call_forex (Some "EUR/USD&limit=9#x y")) sample_key)
  = "https://tradekix-alpha.vercel.app/api/v1/market/forex?symbol=EUR%2FUSD%26limit%3D9%23x+y".
Proof. reflexivity. Qed.
